(** * SPI master core (misoc/cores/spi/core.py): a shallow embedding

    The core is a Migen design: every class is a synchronous module with
    combinatorial signals ([self.comb]) and registers ([self.sync]).
    The embedding follows Migen's execution model:

    - a register is a field of a state record, a [w]-bit signal is a [Z]
      in [0, 2^w) and a 1-bit signal a [bool];
    - a combinatorial signal is a function of the current state and inputs;
    - one clock tick evaluates every right-hand side and every [If]
      condition in the current state and commits all registers together;
    - when several synchronous statements assign one register in a tick the
      last one in statement order wins, a module's own statements coming
      before those of its submodules;
    - [CEInserter] wraps the synchronous statements of a submodule in
      [If(ce, ...)];
    - [Cat] and [Record.raw_bits] put their first argument in the least
      significant bits. *)

From Stdlib Require Import ZArith Bool List Lia Arith.
Import ListNotations.

Local Open Scope Z_scope.
Local Open Scope bool_scope.

(** ** Bit vectors as integers *)

Module Bits.

(** [x[lo:hi]], a Python-style slice of a signal. *)
Definition slice (x lo hi : Z) : Z :=
  Z.land (Z.shiftr x lo) (Z.ones (hi - lo)).

(** [x[lo:hi].eq(v)]: the bits [lo..hi-1] of [x] replaced by [v]. *)
Definition assign_slice (x lo hi v : Z) : Z :=
  Z.lor (Z.ldiff x (Z.shiftl (Z.ones (hi - lo)) lo))
        (Z.shiftl (Z.land v (Z.ones (hi - lo))) lo).

(** [x[k].eq(b)]. *)
Definition set_bit (x k : Z) (b : bool) : Z :=
  if b then Z.setbit x k else Z.clearbit x k.

(** Assignment to a [w]-bit signal keeps the low [w] bits. *)
Definition trunc (w x : Z) : Z := x mod 2 ^ w.

Definition inrange (w x : Z) : Prop := 0 <= x < 2 ^ w.

End Bits.

(** ** SPIClockGen *)

Module SPIClockGen.

Record t := mk { cnt : Z; bias : bool; clk : bool }.

(** [clk] has reset value 1. *)
Definition reset : t := mk 0 false true.

Section Width.
Variable width : Z.

Definition zero (s : t) : bool := cnt s =? 0.
Definition edge (s : t) : bool := zero s && negb (bias s).

(** The synchronous block; [load] and [bias_in] are the inputs
    [self.load] and [self.bias]. *)
Definition sync (load : Z) (bias_in : bool) (s : t) : t :=
  let cnt1 := if zero s then cnt s else Bits.trunc width (cnt s - 1) in
  let bias1 := if zero s then false else bias s in
  if edge s
  then mk (Bits.slice load 1 width)
          (Z.testbit load 0 && xorb (clk s) bias_in)
          (negb (clk s))
  else mk cnt1 bias1 (clk s).

End Width.
End SPIClockGen.

(** ** SPIRegister *)

Module SPIRegister.

Section Width.
Variable width : Z.

(** [self.o = Mux(lsb, data[0], data[-1])]. *)
Definition o (lsb : bool) (data : Z) : bool :=
  if lsb then Z.testbit data 0 else Z.testbit data (width - 1).

(** The synchronous block.  [cur] is the register's current value, which
    every right-hand side reads; [nxt] is the value the statements before
    this block have already given the register for the next tick (the
    parent loads it on [start]), which sliced assignments update. *)
Definition sync (lsb shift sample i : bool) (cur nxt : Z) : Z :=
  let n1 :=
    if shift then
      if lsb
      then Bits.assign_slice nxt 0 (width - 1) (Bits.slice cur 1 width)
      else Bits.assign_slice nxt 1 width (Bits.slice cur 0 (width - 1))
    else nxt in
  if sample then
    if lsb then Bits.set_bit n1 (width - 1) i else Bits.set_bit n1 0 i
  else n1.

End Width.
End SPIRegister.

(** ** SPIBitCounter *)

Module SPIBitCounter.

Record t := mk { n_read : Z; n_write : Z }.

Definition reset : t := mk 0 0.

Section Width.
Variable width : Z.

Definition write (s : t) : bool := negb (n_write s =? 0).
Definition read (s : t) : bool := negb (n_read s =? 0).
Definition done (s : t) : bool := negb (write s || read s).

(** As for the register, [cur] is read and [nxt] is updated. *)
Definition sync (cur nxt : t) : t :=
  if write cur then mk (n_read nxt) (Bits.trunc width (n_write cur - 1))
  else if read cur then mk (Bits.trunc width (n_read cur - 1)) (n_write nxt)
  else nxt.

End Width.
End SPIBitCounter.

(** ** SPIMachine *)

Module SPIMachine.

Inductive fsm_state := IDLE | SETUP | HOLD | WAIT.

Definition ongoing (st cur : fsm_state) : bool :=
  match st, cur with
  | IDLE, IDLE | SETUP, SETUP | HOLD, HOLD | WAIT, WAIT => true
  | _, _ => false
  end.

Record t := mk {
  cg : SPIClockGen.t;
  reg : Z;                      (* reg.data *)
  bits : SPIBitCounter.t;
  fsm : fsm_state;
  write0 : bool
}.

Definition reset : t :=
  mk SPIClockGen.reset 0 SPIBitCounter.reset IDLE false.

Section Widths.
Variables data_width clock_width bits_width : Z.

(** Combinatorial signals.  [start] and [clk_phase] are inputs of the
    module, driven by SPIMaster. *)
Definition edge (s : t) : bool := SPIClockGen.edge (cg s).
Definition cs (s : t) : bool := negb (ongoing IDLE (fsm s)).
Definition bits_done (s : t) : bool := SPIBitCounter.done (bits s).
Definition bits_write (s : t) : bool := SPIBitCounter.write (bits s).
Definition bits_read (s : t) : bool := SPIBitCounter.read (bits s).

(** [reg.sample] is driven in SETUP only. *)
Definition sample (s : t) : bool := ongoing SETUP (fsm s).

(** [reg.shift] is driven in the Else branch of HOLD only. *)
Definition shift (start : bool) (s : t) : bool :=
  match fsm s with
  | HOLD => if bits_done s && negb start then false else negb start
  | _ => false
  end.

Definition next_state (start clk_phase : bool) (s : t) : fsm_state :=
  match fsm s with
  | IDLE => if start then (if clk_phase then WAIT else SETUP) else IDLE
  | SETUP => HOLD
  | HOLD => if bits_done s && negb start
            then (if clk_phase then IDLE else WAIT)
            else SETUP
  | WAIT => if bits_done s then IDLE else SETUP
  end.

Definition done (s : t) : bool :=
  edge s && bits_done s && ongoing HOLD (fsm s).

Definition oe (s : t) : bool := write0 s || bits_write s.

Definition cg_ce (start : bool) (s : t) : bool :=
  start || cs s || negb (edge s).

Definition cg_load (div_write div_read : Z) (s : t) : Z :=
  if bits_write s || negb (bits_read s) then div_write else div_read.

(** One tick of the sequencer and of its three clock-enabled submodules.
    [cur] is the current state; [nxt] carries what the parent's statements
    have already assigned for the next tick. *)
Definition sync (div_write div_read : Z) (clk_phase start lsb i : bool)
    (cur nxt : t) : t :=
  mk (if cg_ce start cur
      then SPIClockGen.sync clock_width (cg_load div_write div_read cur)
             clk_phase (cg cur)
      else cg nxt)
     (if edge cur
      then SPIRegister.sync data_width lsb (shift start cur) (sample cur) i
             (reg cur) (reg nxt)
      else reg nxt)
     (if edge cur && sample cur
      then SPIBitCounter.sync bits_width (bits cur) (bits nxt)
      else bits nxt)
     (if edge cur then next_state start clk_phase cur else fsm nxt)
     (if edge cur && shift start cur then bits_write cur else write0 nxt).

End Widths.
End SPIMachine.

(** ** The register file's records *)

Module Config.

Record t := mk {
  offline : bool;
  active : bool;
  pending : bool;
  cs_polarity : bool;
  clk_polarity : bool;
  clk_phase : bool;
  lsb_first : bool;
  half_duplex : bool;
  padding : Z;
  div_write : Z;
  div_read : Z
}.

(** [config.offline.reset = 1]. *)
Definition reset : t :=
  mk true false false false false false false false 0 0 0.

Definition raw_bits (c : t) : Z :=
  Z.b2z (offline c)
  + Z.shiftl (Z.b2z (active c)) 1
  + Z.shiftl (Z.b2z (pending c)) 2
  + Z.shiftl (Z.b2z (cs_polarity c)) 3
  + Z.shiftl (Z.b2z (clk_polarity c)) 4
  + Z.shiftl (Z.b2z (clk_phase c)) 5
  + Z.shiftl (Z.b2z (lsb_first c)) 6
  + Z.shiftl (Z.b2z (half_duplex c)) 7
  + Z.shiftl (padding c) 8
  + Z.shiftl (div_write c) 16
  + Z.shiftl (div_read c) 24.

(** [config.raw_bits().eq(w)]. *)
Definition of_raw_bits (w : Z) : t :=
  mk (Z.testbit w 0) (Z.testbit w 1) (Z.testbit w 2) (Z.testbit w 3)
     (Z.testbit w 4) (Z.testbit w 5) (Z.testbit w 6) (Z.testbit w 7)
     (Bits.slice w 8 16) (Bits.slice w 16 24) (Bits.slice w 24 32).

Definition set_active (b : bool) (c : t) : t :=
  mk (offline c) b (pending c) (cs_polarity c) (clk_polarity c)
     (clk_phase c) (lsb_first c) (half_duplex c) (padding c)
     (div_write c) (div_read c).

Definition set_pending (b : bool) (c : t) : t :=
  mk (offline c) (active c) b (cs_polarity c) (clk_polarity c)
     (clk_phase c) (lsb_first c) (half_duplex c) (padding c)
     (div_write c) (div_read c).

End Config.

Module Xfer.

Record t := mk {
  cs : Z;
  write_length : Z;
  padding0 : Z;
  read_length : Z;
  padding1 : Z
}.

Definition reset : t := mk 0 0 0 0 0.

Definition raw_bits (x : t) : Z :=
  cs x
  + Z.shiftl (write_length x) 16
  + Z.shiftl (padding0 x) 22
  + Z.shiftl (read_length x) 24
  + Z.shiftl (padding1 x) 30.

(** [xfer.raw_bits().eq(w)]. *)
Definition of_raw_bits (w : Z) : t :=
  mk (Bits.slice w 0 16) (Bits.slice w 16 22) (Bits.slice w 22 24)
     (Bits.slice w 24 30) (Bits.slice w 30 32).

End Xfer.

(** ** SPIMaster *)

Module SPIMaster.

(** [data_width=32, clock_width=8, bits_width=6]. *)
Definition data_width : Z := 32.
Definition clock_width : Z := 8.
Definition bits_width : Z := 6.

Record t := mk {
  spi : SPIMachine.t;
  pending : bool;
  cs : Z;
  data_read : Z;
  data_write : Z;
  xfer : Xfer.t;
  config : Config.t;
  ack : bool                    (* wbus.ack *)
}.

Definition reset : t :=
  mk SPIMachine.reset false 0 0 0 Xfer.reset Config.reset false.

(** What the environment drives in a tick: the bus request and the pins. *)
Record inputs := mk_inputs {
  cyc : bool;
  stb : bool;
  we : bool;
  adr : Z;
  dat_w : Z;
  mosi_i : bool;                (* mosi_t.i *)
  miso : bool                   (* pads.miso *)
}.

(** Which register [Array([data, xfer, config])[wbus.adr]] selects; an
    index past the end selects the last element. *)
Inductive reg_sel := SelData | SelXfer | SelConfig.

Definition array_sel (a : Z) : reg_sel :=
  if a =? 0 then SelData else if a =? 1 then SelXfer else SelConfig.

Definition is_data (r : reg_sel) : bool :=
  match r with SelData => true | _ => false end.
Definition is_xfer (r : reg_sel) : bool :=
  match r with SelXfer => true | _ => false end.
Definition is_config (r : reg_sel) : bool :=
  match r with SelConfig => true | _ => false end.

Section Pads.
(** Whether the pads have a [miso] wire (4-wire SPI). *)
Variable has_miso : bool.

(** Combinatorial signals. *)
Definition spi_cs (s : t) : bool := SPIMachine.cs (spi s).
Definition done (s : t) : bool := SPIMachine.done (spi s).
Definition start (s : t) : bool :=
  pending s && (negb (spi_cs s) || done s).
Definition lsb (s : t) : bool := Config.lsb_first (config s).
Definition reg_o (s : t) : bool :=
  SPIRegister.o data_width (lsb s) (SPIMachine.reg (spi s)).
Definition reg_i (i : inputs) (s : t) : bool :=
  if Config.half_duplex (config s) then mosi_i i
  else if has_miso then miso i else mosi_i i.

Definition dat_r (i : inputs) (s : t) : Z :=
  match array_sel (adr i) with
  | SelData => data_read s
  | SelXfer => Xfer.raw_bits (xfer s)
  | SelConfig => Config.raw_bits (config s)
  end.

(** The pins. *)
Definition clk_o (s : t) : bool :=
  xorb (SPIClockGen.clk (SPIMachine.cg (spi s)) && spi_cs s)
       (Config.clk_polarity (config s)).
Definition clk_oe (s : t) : bool := negb (Config.offline (config s)).
Definition mosi_o (s : t) : bool := reg_o s.
Definition mosi_oe (s : t) : bool :=
  negb (Config.offline (config s)) && spi_cs s
  && (SPIMachine.oe (spi s) || negb (Config.half_duplex (config s))).

(** One system-clock tick. *)
Definition step (i : inputs) (s : t) : t :=
  let m := spi s in
  let st := start s in
  let dn := done s in
  (* If(spi.done, data_read.eq(spi.reg.data)) *)
  let data_read1 := if dn then SPIMachine.reg m else data_read s in
  (* If(spi.start, ...) *)
  let cs1 := if st then Xfer.cs (xfer s) else cs s in
  let bits1 :=
    if st
    then SPIBitCounter.mk (Xfer.read_length (xfer s))
                          (Xfer.write_length (xfer s))
    else SPIMachine.bits m in
  let reg1 := if st then data_write s else SPIMachine.reg m in
  let pending1 := if st then false else pending s in
  (* wbus.ack.eq(...) *)
  let ack1 :=
    cyc i && stb i
    && (negb (we i) || negb (adr i =? 0) || negb (pending s) || dn) in
  (* If(wbus.ack, wbus.ack.eq(0), If(wbus.we, ...)) *)
  let ack2 := if ack s then false else ack1 in
  let wr := ack s && we i in
  let sel := array_sel (adr i) in
  let data_write1 :=
    if wr && is_data sel then Bits.trunc data_width (dat_w i)
    else data_write s in
  let xfer1 :=
    if wr && is_xfer sel then Xfer.of_raw_bits (dat_w i) else xfer s in
  let config1 :=
    if wr && is_config sel then Config.of_raw_bits (dat_w i)
    else config s in
  let pending2 := if wr && (adr i =? 0) then true else pending1 in
  (* config.active.eq(spi.cs), config.pending.eq(pending) *)
  let config2 :=
    Config.set_pending (pending s) (Config.set_active (spi_cs s) config1) in
  (* the submodules' statements come after the module's own *)
  let spi' :=
    SPIMachine.sync data_width clock_width bits_width
      (Config.div_write (config s)) (Config.div_read (config s))
      (Config.clk_phase (config s)) st (lsb s) (reg_i i s)
      m
      (SPIMachine.mk (SPIMachine.cg m) reg1 bits1 (SPIMachine.fsm m)
                     (SPIMachine.write0 m)) in
  mk spi' pending2 cs1 data_read1 data_write1 xfer1 config2 ack2.

(** An execution: [io j s] is what the environment drives at tick [j] when
    the core is in state [s]. *)
Fixpoint run (io : nat -> t -> inputs) (n : nat) (s : t) : t :=
  match n with
  | O => s
  | S k => let sk := run io k s in step (io k sk) sk
  end.

End Pads.
End SPIMaster.

(** ** The reference model of the test bench (test.py) *)

Module Test.

Definition _sampl (val width : Z) : Z :=
  if Z.lxor (Z.shiftr val (width - 1)) (Z.land val 1) =? 0
  then val else Z.lxor val 1.

Definition _sampr (val width : Z) : Z :=
  if Z.lxor (Z.shiftr val (width - 1)) (Z.land val 1) =? 0
  then val else Z.lxor val (Z.shiftl 1 (width - 1)).

Definition _rol (val width : Z) : Z :=
  let mask := Z.shiftl 1 width - 1 in
  let msbs := Z.land (Z.shiftl val 1) mask in
  let lsbs := Z.shiftr (Z.land val mask) (width - 1) in
  Z.lor msbs lsbs.

Definition _ror (val width : Z) : Z :=
  let mask := Z.shiftl 1 width - 1 in
  let lsbs := Z.shiftr (Z.land val mask) 1 in
  let msbs := Z.land (Z.shiftl val (width - 1)) mask in
  Z.lor msbs lsbs.

(** [for i in range(num_samples - 1)] runs [num_samples - 1] times, and
    not at all when that is not positive. *)
Definition _simulate_shifts (write_val num_samples : Z) (lsb : bool)
    (width : Z) : Z :=
  if lsb then
    _sampr (Nat.iter (Z.to_nat (num_samples - 1))
              (fun curr_val => _ror (_sampr curr_val width) width)
              write_val) width
  else
    _sampl (Nat.iter (Z.to_nat (num_samples - 1))
              (fun curr_val => _rol (_sampl curr_val width) width)
              write_val) width.

End Test.

(** ** Notions used in the statements *)

(** The parity the clock register keeps with the sequencer's state: idle
    it is high, and a WAIT entered after HOLD (sampling on the first edge)
    has nothing left to transfer. *)
Definition clk_aligned (s : SPIMaster.t) : bool :=
  let m := SPIMaster.spi s in
  let cpha := Config.clk_phase (SPIMaster.config s) in
  Bool.eqb (SPIClockGen.clk (SPIMachine.cg m))
           (match SPIMachine.fsm m with
            | SPIMachine.IDLE => true
            | SPIMachine.WAIT => false
            | SPIMachine.SETUP => cpha
            | SPIMachine.HOLD => negb cpha
            end)
  && (match SPIMachine.fsm m with
      | SPIMachine.WAIT => cpha || SPIMachine.bits_done m
      | _ => true
      end).

(** The sequencer is idle before and after the tick from [s] to [s']. *)
Definition stays_idle (s s' : SPIMaster.t) : Prop :=
  SPIMachine.fsm (SPIMaster.spi s) = SPIMachine.IDLE /\
  SPIMachine.fsm (SPIMaster.spi s') = SPIMachine.IDLE.

(** The clock configuration is left alone over the tick from [s] to [s'],
    or is rewritten while the sequencer is and stays idle. *)
Definition clock_config_stable (s s' : SPIMaster.t) : Prop :=
  (Config.clk_phase (SPIMaster.config s') =
     Config.clk_phase (SPIMaster.config s) /\
   Config.clk_polarity (SPIMaster.config s') =
     Config.clk_polarity (SPIMaster.config s))
  \/ stays_idle s s'.

(** No bus request, and the serial output looped back to the input. *)
Definition loopback_idle (s : SPIMaster.t) : SPIMaster.inputs :=
  SPIMaster.mk_inputs false false false 0 0
    (SPIMaster.reg_o s) (SPIMaster.reg_o s).

(** No bus request; the serial input held at [b]. *)
Definition bus_idle (b : bool) (s : SPIMaster.t) : SPIMaster.inputs :=
  SPIMaster.mk_inputs false false false 0 0 b b.

(** A bus write of [d] to word address [a], the pins looped back. *)
Definition bus_write (a d : Z) (s : SPIMaster.t) : SPIMaster.inputs :=
  SPIMaster.mk_inputs true true true a d
    (SPIMaster.reg_o s) (SPIMaster.reg_o s).

(** How many [done] pulses the first [n] ticks of an execution have. *)
Fixpoint done_pulses (has_miso : bool)
    (io : nat -> SPIMaster.t -> SPIMaster.inputs) (n : nat)
    (s : SPIMaster.t) : nat :=
  match n with
  | O => O
  | S k =>
      (done_pulses has_miso io k s
       + if SPIMaster.done (SPIMaster.run has_miso io k s) then 1 else 0)%nat
  end.


(** A host that queues a zero-length transfer and, while it runs, rewrites
    [config] with [clk_phase] set. *)
Definition io_rephase (j : nat) (s : SPIMaster.t) : SPIMaster.inputs :=
  if (j <? 2)%nat then bus_write 0 0 s
  else if (j <? 4)%nat then bus_write 2 0x20 s
  else loopback_idle s.

(** A host that sets [clk_phase] while the core is idle and then queues a
    transfer of the word [d]. *)
Definition io_phase_then_data (d : Z) (j : nat) (s : SPIMaster.t)
    : SPIMaster.inputs :=
  if (j <? 2)%nat then bus_write 2 0x20 s
  else if (j <? 4)%nat then bus_write 0 d s
  else loopback_idle s.


(** Environments: no bus request at any tick; the serial output looped
    back to the serial input. *)
Definition quiet (io : nat -> SPIMaster.t -> SPIMaster.inputs) : Prop :=
  forall j s, SPIMaster.cyc (io j s) && SPIMaster.stb (io j s) = false.

Definition looped (io : nat -> SPIMaster.t -> SPIMaster.inputs) : Prop :=
  forall j s,
    SPIMaster.mosi_i (io j s) = SPIMaster.reg_o s /\
    SPIMaster.miso (io j s) = SPIMaster.reg_o s.

(** The core has a transfer in flight and nothing queued: the sequencer is
    in state [f] with [d] in the shift register and [nr], [nw] bits left,
    under clock phase [p] and bit order [l]; [r] is the readable data. *)
Definition in_flight (s : SPIMaster.t) (f : SPIMachine.fsm_state)
    (d nr nw : Z) (p l : bool) (r : Z) : Prop :=
  SPIMachine.fsm (SPIMaster.spi s) = f /\
  SPIMachine.reg (SPIMaster.spi s) = d /\
  SPIMachine.bits (SPIMaster.spi s) = SPIBitCounter.mk nr nw /\
  SPIMaster.pending s = false /\
  SPIMaster.ack s = false /\
  Config.clk_phase (SPIMaster.config s) = p /\
  Config.lsb_first (SPIMaster.config s) = l /\
  SPIMaster.data_read s = r /\
  0 <= SPIClockGen.cnt (SPIMachine.cg (SPIMaster.spi s))
    < 2 ^ SPIMaster.clock_width.

(** What the shift register holds after [k+1] sample edges and the [k]
    shift edges between them, its output looped back to its input. *)
Fixpoint loop_shifts (width : Z) (lsb : bool) (k : nat) (d : Z) : Z :=
  let sampled :=
    SPIRegister.sync width lsb false true (SPIRegister.o width lsb d) d d in
  match k with
  | O => sampled
  | S k' =>
      loop_shifts width lsb k'
        (SPIRegister.sync width lsb true false false sampled sampled)
  end.

(** How far the clock generator is from its next edge. *)
Definition cg_measure (s : SPIMaster.t) : nat :=
  (2 * Z.to_nat (SPIClockGen.cnt (SPIMachine.cg (SPIMaster.spi s)))
   + if SPIClockGen.bias (SPIMachine.cg (SPIMaster.spi s)) then 1 else 0)%nat.


(** The execution from [s] reaches a state satisfying [P] with no [done]
    pulse at any tick before it. *)
Definition reaches (has_miso : bool)
    (io : nat -> SPIMaster.t -> SPIMaster.inputs) (s : SPIMaster.t)
    (P : SPIMaster.t -> Prop) : Prop :=
  exists k,
    P (SPIMaster.run has_miso io k s) /\
    forall j, (j < k)%nat ->
      SPIMaster.done (SPIMaster.run has_miso io j s) = false.

(** Every register holds a value of its signal's width. *)
Definition well_formed (s : SPIMaster.t) : Prop :=
  let m := SPIMaster.spi s in
  let x := SPIMaster.xfer s in
  let c := SPIMaster.config s in
  Bits.inrange SPIMaster.clock_width (SPIClockGen.cnt (SPIMachine.cg m)) /\
  Bits.inrange SPIMaster.data_width (SPIMachine.reg m) /\
  Bits.inrange SPIMaster.bits_width
    (SPIBitCounter.n_read (SPIMachine.bits m)) /\
  Bits.inrange SPIMaster.bits_width
    (SPIBitCounter.n_write (SPIMachine.bits m)) /\
  Bits.inrange 16 (SPIMaster.cs s) /\
  Bits.inrange SPIMaster.data_width (SPIMaster.data_read s) /\
  Bits.inrange SPIMaster.data_width (SPIMaster.data_write s) /\
  Bits.inrange 16 (Xfer.cs x) /\
  Bits.inrange 6 (Xfer.write_length x) /\
  Bits.inrange 2 (Xfer.padding0 x) /\
  Bits.inrange 6 (Xfer.read_length x) /\
  Bits.inrange 2 (Xfer.padding1 x) /\
  Bits.inrange 8 (Config.padding c) /\
  Bits.inrange 8 (Config.div_write c) /\
  Bits.inrange 8 (Config.div_read c).

(** A host that sets [div_write] to 6, queues a zero-length transfer, and
    writes the data register again at ticks 16 and 17, just after that
    transfer has released chip select. *)
Definition io_late_write (j : nat) (s : SPIMaster.t) : SPIMaster.inputs :=
  if (j <? 2)%nat then bus_write 2 0x00060000 s
  else if (j <? 4)%nat then bus_write 0 5 s
  else if ((16 <=? j) && (j <? 18))%nat then bus_write 0 7 s
  else loopback_idle s.

(** A host that queues one transfer of the word [d] from reset. *)
Definition io_single (d : Z) (j : nat) (s : SPIMaster.t)
    : SPIMaster.inputs :=
  if (j <? 2)%nat then bus_write 0 d s else loopback_idle s.


(** * Properties *)

Example simulate_shifts_4 :
  Test._simulate_shifts 0x90000000 4 false 32 = 0x80000009.
Proof. reflexivity. Qed.

(** ** Bit-level lemmas *)

Section BitLemmas.
Import Bits.

Lemma testbit_slice x lo hi i :
  0 <= lo <= hi -> 0 <= i ->
  Z.testbit (slice x lo hi) i = (i <? hi - lo) && Z.testbit x (i + lo).
Proof.
  intros Hlo Hi. unfold slice.
  rewrite Z.land_spec, Z.shiftr_spec by assumption.
  rewrite Z.testbit_ones_nonneg by lia.
  apply andb_comm.
Qed.

Lemma testbit_assign_slice x lo hi v i :
  0 <= lo <= hi -> 0 <= i ->
  Z.testbit (assign_slice x lo hi v) i =
  if (lo <=? i) && (i <? hi) then Z.testbit v (i - lo) else Z.testbit x i.
Proof.
  intros Hlo Hi. unfold assign_slice.
  rewrite Z.lor_spec, Z.ldiff_spec, !Z.shiftl_spec by assumption.
  rewrite Z.land_spec.
  destruct (Z.leb_spec lo i) as [Hle | Hlt]; cbn [andb].
  - rewrite !Z.testbit_ones_nonneg by lia.
    replace (i - lo <? hi - lo) with (i <? hi)
      by (destruct (Z.ltb_spec i hi), (Z.ltb_spec (i - lo) (hi - lo)); lia).
    destruct (i <? hi); cbn.
    + now rewrite andb_false_r, andb_true_r.
    + now rewrite andb_true_r, andb_false_r, orb_false_r.
  - rewrite !(Z.testbit_neg_r _ (i - lo)) by lia.
    cbn. now rewrite andb_true_r, orb_false_r.
Qed.

Lemma testbit_set_bit x k b i :
  0 <= k ->
  Z.testbit (set_bit x k b) i = if i =? k then b else Z.testbit x i.
Proof.
  intros Hk. unfold set_bit. destruct b.
  - rewrite Z.setbit_eqb by assumption. rewrite (Z.eqb_sym k i).
    now destruct (i =? k).
  - rewrite Z.clearbit_eqb. rewrite (Z.eqb_sym k i).
    destruct (i =? k); cbn; [apply andb_false_r | apply andb_true_r].
Qed.

Lemma inrange_testbit_high w x i :
  inrange w x -> w <= i -> Z.testbit x i = false.
Proof.
  intros [H0 Hw] Hi.
  destruct (Z.ltb_spec w 0) as [Hn | Hn].
  - rewrite Z.pow_neg_r in Hw by assumption. lia.
  - rewrite <- (Z.mod_small x (2 ^ w)) by lia.
    apply Z.mod_pow2_bits_high. lia.
Qed.

Lemma inrange_of_bits w x :
  0 <= w -> (forall i, w <= i -> Z.testbit x i = false) -> inrange w x.
Proof.
  intros Hw H.
  assert (E : x mod 2 ^ w = x).
  { apply Z.bits_inj'. intros i Hi.
    destruct (Z.ltb_spec i w).
    - now apply Z.mod_pow2_bits_low.
    - rewrite Z.mod_pow2_bits_high by lia. symmetry. now apply H. }
  rewrite <- E. apply Z.mod_pos_bound. now apply Z.pow_pos_nonneg.
Qed.

Lemma trunc_small w x : inrange w x -> trunc w x = x.
Proof. intros H. unfold trunc. now apply Z.mod_small. Qed.

Lemma inrange_trunc w x : 0 <= w -> inrange w (trunc w x).
Proof.
  intros Hw. unfold trunc, inrange. apply Z.mod_pos_bound.
  now apply Z.pow_pos_nonneg.
Qed.

End BitLemmas.

(** ** The shift register *)

Section ShiftRegister.
Import Bits.

Lemma sample_bits width lsb i d j :
  1 <= width -> 0 <= j ->
  Z.testbit (SPIRegister.sync width lsb false true i d d) j =
  if j =? (if lsb then width - 1 else 0) then i else Z.testbit d j.
Proof.
  intros Hw Hj. unfold SPIRegister.sync.
  destruct lsb; apply testbit_set_bit; lia.
Qed.

Lemma shift_bits_msb width i d j :
  1 <= width -> 0 <= j ->
  Z.testbit (SPIRegister.sync width false true false i d d) j =
  if (1 <=? j) && (j <? width) then Z.testbit d (j - 1) else Z.testbit d j.
Proof.
  intros Hw Hj. unfold SPIRegister.sync.
  rewrite testbit_assign_slice by lia.
  destruct (Z.leb_spec 1 j), (Z.ltb_spec j width); cbn [andb]; trivial.
  rewrite testbit_slice by lia.
  replace (j - 1 <? width - 1 - 0) with true
    by (symmetry; apply Z.ltb_lt; lia).
  cbn [andb]. f_equal. lia.
Qed.

Lemma shift_bits_lsb width i d j :
  1 <= width -> 0 <= j ->
  Z.testbit (SPIRegister.sync width true true false i d d) j =
  if j <? width - 1 then Z.testbit d (j + 1) else Z.testbit d j.
Proof.
  intros Hw Hj. unfold SPIRegister.sync.
  rewrite testbit_assign_slice by lia.
  replace (0 <=? j) with true by (symmetry; apply Z.leb_le; lia).
  cbn [andb].
  destruct (Z.ltb_spec j (width - 1)); trivial.
  rewrite testbit_slice by lia.
  replace (j - 0 <? width - 1) with true
    by (symmetry; apply Z.ltb_lt; lia).
  cbn [andb]. f_equal. lia.
Qed.

End ShiftRegister.

(** C6 (as the code has it): an enabled edge with [sample] asserted writes
    the input bit into the position the shift vacates, which is the MSB
    (bit [width-1]) when lsb-first is configured and the LSB (bit 0)
    otherwise, leaving every other bit alone; the following shift keeps the
    bit at that position and copies it to the neighbouring one. *)
Theorem sample_position (width : Z) (lsb i i' : bool) (d : Z) :
  2 <= width ->
  let pos := if lsb then width - 1 else 0 in
  let next := if lsb then width - 2 else 1 in
  let d1 := SPIRegister.sync width lsb false true i d d in
  let d2 := SPIRegister.sync width lsb true false i' d1 d1 in
  Z.testbit d1 pos = i /\
  (forall j, 0 <= j -> j <> pos -> Z.testbit d1 j = Z.testbit d j) /\
  Z.testbit d2 pos = i /\
  Z.testbit d2 next = i.
Proof.
  intros Hw pos next d1 d2.
  assert (Hpos : 0 <= pos) by (subst pos; destruct lsb; lia).
  assert (H1 : Z.testbit d1 pos = i).
  { subst d1. rewrite sample_bits by lia. subst pos.
    now rewrite Z.eqb_refl. }
  split; [exact H1 |]. split.
  - intros j Hj Hne. subst d1. rewrite sample_bits by lia.
    fold pos. destruct (Z.eqb_spec j pos); [contradiction | reflexivity].
  - subst d2 pos next. destruct lsb.
    + rewrite !shift_bits_lsb by lia.
      replace (width - 1 <? width - 1) with false
        by (symmetry; apply Z.ltb_ge; lia).
      replace (width - 2 <? width - 1) with true
        by (symmetry; apply Z.ltb_lt; lia).
      replace (width - 2 + 1) with (width - 1) by lia. now split.
    + rewrite !shift_bits_msb by lia.
      replace (1 <? width) with true by (symmetry; apply Z.ltb_lt; lia).
      cbn. now split.
Qed.

Lemma sample_position_witness :
  2 <= 32 /\
  Z.testbit (SPIRegister.sync 32 true false true true 5 5) 31 = true.
Proof.
  split; [lia |].
  exact (proj1 (sample_position 32 true true false 5 ltac:(lia))).
Defined.

(** C6 as the specification words it (LSB when lsb-first, MSB otherwise)
    fails: sampling a 1 into an empty lsb-first register sets bit 31 and
    leaves bit 0 clear. *)
Lemma sample_position_counterexample :
  ~ (forall (lsb i : bool) (d : Z),
        Bits.inrange 32 d ->
        Z.testbit (SPIRegister.sync 32 lsb false true i d d)
                  (if lsb then 0 else 31) = i).
Proof.
  intros H. specialize (H true true 0).
  assert (R : Bits.inrange 32 0) by (unfold Bits.inrange; lia).
  specialize (H R). vm_compute in H. discriminate H.
Qed.

(** ** The register file: one tick *)

Section RegisterFile.
Import SPIMaster.
Variable has_miso : bool.

Lemma step_ack i s :
  ack (step has_miso i s) =
  if ack s then false
  else cyc i && stb i
       && (negb (we i) || negb (adr i =? 0) || negb (pending s) || done s).
Proof. reflexivity. Qed.

Lemma step_data_read i s :
  data_read (step has_miso i s) =
  if done s then SPIMachine.reg (spi s) else data_read s.
Proof. reflexivity. Qed.

Lemma step_pending i s :
  pending (step has_miso i s) =
  if ack s && we i && (adr i =? 0) then true
  else if start s then false else pending s.
Proof. reflexivity. Qed.

Lemma step_data_write i s :
  data_write (step has_miso i s) =
  if ack s && we i && (adr i =? 0) then Bits.trunc data_width (dat_w i)
  else data_write s.
Proof.
  unfold step, array_sel. cbn [data_write].
  destruct (adr i =? 0) eqn:E; cbn [is_data]; [reflexivity |].
  rewrite !andb_false_r.
  destruct (adr i =? 1); cbn [is_data]; now rewrite andb_false_r.
Qed.

Lemma step_xfer i s :
  xfer (step has_miso i s) =
  if ack s && we i && (adr i =? 1) then Xfer.of_raw_bits (dat_w i)
  else xfer s.
Proof.
  unfold step, array_sel. cbn [xfer].
  destruct (Z.eqb_spec (adr i) 0) as [E | E]; cbn [is_xfer].
  - rewrite E. cbn. now rewrite !andb_false_r.
  - destruct (adr i =? 1); cbn [is_xfer]; reflexivity.
Qed.

Lemma step_config_active i s :
  Config.active (config (step has_miso i s)) = spi_cs s.
Proof. reflexivity. Qed.

Lemma step_config_pending i s :
  Config.pending (config (step has_miso i s)) = pending s.
Proof. reflexivity. Qed.

Lemma step_fsm i s :
  SPIMachine.fsm (spi (step has_miso i s)) =
  if SPIMachine.edge (spi s)
  then SPIMachine.next_state (start s) (Config.clk_phase (config s)) (spi s)
  else SPIMachine.fsm (spi s).
Proof. reflexivity. Qed.

(** A [start] comes in IDLE or on the [done] pulse in HOLD, where the
    register neither samples nor shifts: the load from the write buffer and
    the register's own statements never meet. *)
Lemma start_no_sample_shift s :
  start s = true ->
  SPIMachine.sample (spi s) = false /\
  SPIMachine.shift (start s) (spi s) = false.
Proof.
  unfold start, spi_cs, done, SPIMachine.done, SPIMachine.cs,
    SPIMachine.sample, SPIMachine.shift.
  destruct (SPIMachine.fsm (spi s)); cbn;
    rewrite ?andb_false_r; cbn; intros H; rewrite ?H;
    try discriminate; split; trivial.
  cbn. now destruct (SPIMachine.bits_done (spi s)).
Qed.

Lemma step_reg_start i s :
  start s = true ->
  SPIMachine.reg (spi (step has_miso i s)) = data_write s.
Proof.
  intros H. destruct (start_no_sample_shift s H) as [Hs Hh].
  unfold step. cbn [spi SPIMachine.sync SPIMachine.reg].
  rewrite Hs, Hh, H. unfold SPIRegister.sync.
  now destruct (SPIMachine.edge (spi s)).
Qed.

End RegisterFile.

Section RegisterFileClaims.
Import SPIMaster.

(** C2: a bus write to the data register (address 0).  While the request
    is up and not yet acknowledged: with nothing pending it is acknowledged
    at this tick; with a transfer pending and no [done] pulse the
    acknowledgment is withheld, and the pending transfer stays queued
    behind the one in flight; on the [done] pulse the write is acknowledged
    and the queued data moves into the shift register.  On the acknowledged
    tick the write buffer takes the bus data and [pending] is set. *)
Theorem data_write_backpressure (has_miso : bool) (i : inputs) (s : t) :
  cyc i = true -> stb i = true -> we i = true -> adr i = 0 ->
  let s' := step has_miso i s in
  (ack s = false -> pending s = false -> ack s' = true) /\
  (ack s = false -> pending s = true -> done s = false ->
     ack s' = false /\ (spi_cs s = true -> pending s' = true)) /\
  (ack s = false -> pending s = true -> done s = true ->
     ack s' = true /\ SPIMachine.reg (spi s') = data_write s) /\
  (ack s = true ->
     ack s' = false /\ pending s' = true /\
     data_write s' = Bits.trunc data_width (dat_w i)).
Proof.
  intros Hc Hs Hw Ha s'. subst s'.
  rewrite step_ack, step_pending, step_data_write, Hc, Hs, Hw, Ha.
  cbn [andb negb orb Z.eqb].
  split; [| split; [| split]].
  - intros -> ->. reflexivity.
  - intros Hk Hp Hd. rewrite Hk, Hp, Hd. split; [reflexivity |].
    intros Hcs. unfold start. rewrite Hp, Hcs, Hd. reflexivity.
  - intros Hk Hp Hd. rewrite Hk, Hp, Hd. split; [reflexivity |].
    apply step_reg_start. unfold start. rewrite Hp, Hd.
    cbn. apply orb_true_r.
  - intros Hk. rewrite Hk. repeat split.
Qed.

Lemma data_write_backpressure_witness :
  let i := mk_inputs true true true 0 7 false false in
  cyc i = true /\ stb i = true /\ we i = true /\ adr i = 0 /\
  (ack reset = false -> pending reset = false ->
   ack (step true i reset) = true).
Proof.
  intros i.
  split; [reflexivity |]. split; [reflexivity |].
  split; [reflexivity |]. split; [reflexivity |].
  exact (proj1 (data_write_backpressure true i reset eq_refl eq_refl
                  eq_refl eq_refl)).
Defined.

Lemma config_raw_bits_status c :
  Z.testbit (Config.raw_bits c) 1 = Config.active c /\
  Z.testbit (Config.raw_bits c) 2 = Config.pending c.
Proof.
  set (r := Z.b2z (Config.cs_polarity c)
            + 2 * Z.b2z (Config.clk_polarity c)
            + 4 * Z.b2z (Config.clk_phase c)
            + 8 * Z.b2z (Config.lsb_first c)
            + 16 * Z.b2z (Config.half_duplex c)
            + 32 * Config.padding c
            + 8192 * Config.div_write c
            + 2097152 * Config.div_read c).
  assert (E : Config.raw_bits c =
              2 * (2 * (2 * r + Z.b2z (Config.pending c))
                   + Z.b2z (Config.active c))
              + Z.b2z (Config.offline c)).
  { unfold Config.raw_bits, r. rewrite !Z.shiftl_mul_pow2 by lia.
    change (2 ^ 1) with 2. change (2 ^ 2) with 4. change (2 ^ 3) with 8.
    change (2 ^ 4) with 16. change (2 ^ 5) with 32.
    change (2 ^ 6) with 64. change (2 ^ 7) with 128.
    change (2 ^ 8) with 256. change (2 ^ 16) with 65536.
    change (2 ^ 24) with 16777216. lia. }
  rewrite E. split.
  - change 1 with (Z.succ 0). rewrite Z.testbit_succ_r by lia.
    apply Z.testbit_0_r.
  - change 2 with (Z.succ (Z.succ 0)). rewrite !Z.testbit_succ_r by lia.
    apply Z.testbit_0_r.
Qed.

(** C9: whatever the bus does in a tick, and whatever a write to [config]
    carries in bits 1 and 2, after the tick the [active] bit is the
    sequencer's chip select and the [pending] bit the buffered-transfer
    flag, both as they were at that tick; a bus read of address 2 returns
    them in bits 1 and 2. *)
Theorem config_status_bits (has_miso : bool) (i : inputs) (s : t) :
  let s' := step has_miso i s in
  Config.active (config s') = spi_cs s /\
  Config.pending (config s') = pending s /\
  (forall r : inputs, adr r = 2 ->
     Z.testbit (dat_r r s') 1 = spi_cs s /\
     Z.testbit (dat_r r s') 2 = pending s).
Proof.
  intros s'. split; [reflexivity |]. split; [reflexivity |].
  intros r Hr. unfold dat_r. rewrite Hr. cbn [array_sel Z.eqb Pos.eqb].
  exact (config_raw_bits_status (config s')).
Qed.

(** C10: the readable data value changes only at a [done] pulse, where it
    takes the shift register's contents; an acknowledged write to the data
    register changes the write buffer and the [pending] flag and nothing
    else; over any execution the readable value stays as it is for as long
    as no [done] pulse occurs. *)
Theorem data_read_frame (has_miso : bool) (i : inputs) (s : t) :
  data_read (step has_miso i s) =
    (if done s then SPIMachine.reg (spi s) else data_read s) /\
  (ack s = true -> we i = true -> adr i = 0 ->
   let s0 := step has_miso
               (mk_inputs (cyc i) (stb i) false (adr i) (dat_w i)
                          (mosi_i i) (miso i)) s in
   step has_miso i s =
   mk (spi s0) true (cs s0) (data_read s0)
      (Bits.trunc data_width (dat_w i)) (xfer s0) (config s0) (ack s0)) /\
  (forall io n,
     (forall j, (j < n)%nat -> done (run has_miso io j s) = false) ->
     data_read (run has_miso io n s) = data_read s).
Proof.
  split; [reflexivity |]. split.
  - intros Hk Hw Ha s0. subst s0. unfold step.
    cbn [cyc stb we adr dat_w mosi_i miso]. rewrite Hk, Hw, Ha.
    reflexivity.
  - intros io n. induction n as [| n IH]; intros H; [reflexivity |].
    cbn [run]. rewrite step_data_read, H by lia.
    apply IH. intros j Hj. apply H. lia.
Qed.

Lemma slice_div_mod x lo hi :
  0 <= lo <= hi -> Bits.slice x lo hi = (x / 2 ^ lo) mod 2 ^ (hi - lo).
Proof.
  intros H. unfold Bits.slice.
  rewrite Z.land_ones by lia. now rewrite Z.shiftr_div_pow2 by lia.
Qed.

Lemma inrange_slice x lo hi : 0 <= lo <= hi -> Bits.inrange (hi - lo) (Bits.slice x lo hi).
Proof.
  intros H. rewrite slice_div_mod by assumption.
  apply Z.mod_pos_bound. apply Z.pow_pos_nonneg; lia.
Qed.

Lemma xfer_raw_bits_of_raw_bits w :
  Bits.inrange 32 w -> Xfer.raw_bits (Xfer.of_raw_bits w) = w.
Proof.
  unfold Bits.inrange. intros H.
  unfold Xfer.raw_bits, Xfer.of_raw_bits.
  cbn [Xfer.cs Xfer.write_length Xfer.padding0 Xfer.read_length
       Xfer.padding1].
  rewrite !slice_div_mod by lia. rewrite !Z.shiftl_mul_pow2 by lia.
  change (2 ^ 32) with 4294967296 in H.
  change (2 ^ (16 - 0)) with 65536. change (2 ^ 0) with 1.
  change (2 ^ (22 - 16)) with 64. change (2 ^ (24 - 22)) with 4.
  change (2 ^ (30 - 24)) with 64. change (2 ^ (32 - 30)) with 4.
  change (2 ^ 16) with 65536. change (2 ^ 22) with 4194304.
  change (2 ^ 24) with 16777216. change (2 ^ 30) with 1073741824.
  Z.div_mod_to_equations. lia.
Qed.

(** C7 (as the code has it): an acknowledged bus write of a 32-bit word to
    word address 1 puts bits [15:0] of the word in the chip-select mask,
    bits [21:16] in write_length and bits [29:24] in read_length, bits
    [23:22] and [31:30] being the two reserved gaps; the register reads
    back as the word written. *)
Theorem xfer_layout (has_miso : bool) (i : inputs) (s : t) :
  ack s = true -> we i = true -> adr i = 1 ->
  Bits.inrange 32 (dat_w i) ->
  let x := xfer (step has_miso i s) in
  let w := dat_w i in
  (forall k, 0 <= k < 16 -> Z.testbit (Xfer.cs x) k = Z.testbit w k) /\
  (forall k, 0 <= k < 6 ->
     Z.testbit (Xfer.write_length x) k = Z.testbit w (16 + k)) /\
  (forall k, 0 <= k < 6 ->
     Z.testbit (Xfer.read_length x) k = Z.testbit w (24 + k)) /\
  (forall k, 0 <= k < 2 ->
     Z.testbit (Xfer.padding0 x) k = Z.testbit w (22 + k)) /\
  (forall k, 0 <= k < 2 ->
     Z.testbit (Xfer.padding1 x) k = Z.testbit w (30 + k)) /\
  Bits.inrange 16 (Xfer.cs x) /\
  Bits.inrange 6 (Xfer.write_length x) /\
  Bits.inrange 6 (Xfer.read_length x) /\
  Xfer.raw_bits x = w.
Proof.
  intros Hk Hw Ha Hr x w. subst x w.
  rewrite step_xfer, Hk, Hw, Ha. cbn [andb Z.eqb].
  cbn [Pos.eqb Xfer.of_raw_bits Xfer.cs Xfer.write_length Xfer.read_length
       Xfer.padding0 Xfer.padding1].
  assert (B : forall lo hi k,
             0 <= lo <= hi -> 0 <= k < hi - lo ->
             Z.testbit (Bits.slice (dat_w i) lo hi) k =
             Z.testbit (dat_w i) (lo + k)).
  { intros lo hi k Hlo Hkk. rewrite testbit_slice by lia.
    replace (k <? hi - lo) with true by (symmetry; apply Z.ltb_lt; lia).
    cbn [andb]. f_equal. lia. }
  repeat split.
  - intros k Hkk. now rewrite B by lia.
  - intros k Hkk. now rewrite B by lia.
  - intros k Hkk. now rewrite B by lia.
  - intros k Hkk. now rewrite B by lia.
  - intros k Hkk. now rewrite B by lia.
  - apply (inrange_slice (dat_w i) 0 16); lia.
  - apply (inrange_slice (dat_w i) 0 16); lia.
  - apply (inrange_slice (dat_w i) 16 22); lia.
  - apply (inrange_slice (dat_w i) 16 22); lia.
  - apply (inrange_slice (dat_w i) 24 30); lia.
  - apply (inrange_slice (dat_w i) 24 30); lia.
  - now apply xfer_raw_bits_of_raw_bits.
Qed.

Lemma xfer_layout_witness :
  let i := mk_inputs true true true 1 0x00030000 false false in
  let s := mk SPIMachine.reset false 0 0 0 Xfer.reset Config.reset true in
  ack s = true /\ we i = true /\ adr i = 1 /\ Bits.inrange 32 (dat_w i) /\
  Xfer.raw_bits (xfer (step true i s)) = dat_w i.
Proof.
  intros i s.
  assert (R : Bits.inrange 32 (dat_w i)) by (unfold Bits.inrange; cbn; lia).
  split; [reflexivity |]. split; [reflexivity |].
  split; [reflexivity |]. split; [exact R |].
  apply (xfer_layout true i s eq_refl eq_refl eq_refl R).
Defined.

(** C7 as the specification words it (mask in bits [31:16], write_length
    in [15:10], read_length in [7:2]) fails: writing 0x00030000 leaves the
    mask empty and sets write_length to 3. *)
Lemma xfer_layout_counterexample :
  ~ (forall (i : inputs) (s : t),
        ack s = true -> we i = true -> adr i = 1 ->
        Bits.inrange 32 (dat_w i) ->
        let x := xfer (step true i s) in
        Xfer.cs x = Bits.slice (dat_w i) 16 32 /\
        Xfer.write_length x = Bits.slice (dat_w i) 10 16 /\
        Xfer.read_length x = Bits.slice (dat_w i) 2 8).
Proof.
  intros H.
  specialize (H (mk_inputs true true true 1 0x00030000 false false)
                (mk SPIMachine.reset false 0 0 0 Xfer.reset Config.reset
                    true)
                eq_refl eq_refl eq_refl).
  assert (R : Bits.inrange 32 0x00030000) by (unfold Bits.inrange; lia).
  specialize (H R). destruct H as [H _]. vm_compute in H. discriminate H.
Qed.

End RegisterFileClaims.

(** ** The clock generator *)

Section ClockGen.
Import SPIClockGen.
Variables (width load : Z) (bias_in : bool).
Hypothesis width_pos : 0 < width.
Hypothesis load_range : 0 <= load < 2 ^ width.

Let tick := sync width load bias_in.

(** How many ticks the bias mechanism adds to the half period that
    follows an edge taken at clock level [c]. *)
Let ext (c : bool) : nat :=
  if Z.odd load && xorb c bias_in then 1%nat else 0%nat.

Lemma load_half : Bits.slice load 1 width = load / 2.
Proof.
  rewrite slice_div_mod by lia. change (2 ^ 1) with 2.
  apply Z.mod_small.
  assert (E : 2 ^ width = 2 * 2 ^ (width - 1)).
  { rewrite <- Z.pow_succ_r by lia. f_equal. lia. }
  split; [apply Z.div_pos; lia |].
  apply Z.div_lt_upper_bound; lia.
Qed.

Lemma tick_edge c :
  tick (mk 0 false c) =
  mk (load / 2) (Z.odd load && xorb c bias_in) (negb c).
Proof.
  unfold tick, sync, edge, zero. cbn [cnt bias clk Z.eqb andb negb].
  now rewrite load_half, Z.bit0_odd.
Qed.

Lemma countdown_at (n : nat) (bb c : bool) (j : nat) :
  (j <= n)%nat -> Z.of_nat n < 2 ^ width ->
  Nat.iter j tick (mk (Z.of_nat n) bb c) = mk (Z.of_nat (n - j)) bb c.
Proof.
  intros Hj Hn. induction j as [| j IH].
  - cbn. now rewrite Nat.sub_0_r.
  - rewrite Nat.iter_succ, IH by lia.
    unfold tick, sync, edge, zero. cbn [cnt bias clk].
    replace (Z.of_nat (n - j) =? 0) with false
      by (symmetry; apply Z.eqb_neq; lia).
    cbn [andb]. f_equal.
    unfold Bits.trunc. rewrite Z.mod_small by lia. lia.
Qed.

Lemma tick_bias c : tick (mk 0 true c) = mk 0 false c.
Proof. reflexivity. Qed.

(** The state [j] ticks after an edge taken at clock level [c], up to and
    including the next edge. *)
Lemma after_edge (c : bool) (j : nat) :
  let a := Z.to_nat (load / 2) in
  (1 <= j <= a + 1 + ext c)%nat ->
  Nat.iter j tick (mk 0 false c) =
  if (j <=? a)%nat
  then mk (Z.of_nat (a + 1 - j)) (Z.odd load && xorb c bias_in) (negb c)
  else if (j =? a + 1)%nat
       then mk 0 (Z.odd load && xorb c bias_in) (negb c)
       else mk 0 false (negb c).
Proof.
  intros a Hj.
  assert (Ha : Z.of_nat a = load / 2).
  { subst a. apply Z2Nat.id. apply Z.div_pos; lia. }
  assert (Hlt : Z.of_nat a < 2 ^ width).
  { rewrite Ha. apply Z.div_lt_upper_bound; lia. }
  assert (E1 : forall i, (i <= a)%nat ->
             Nat.iter (S i) tick (mk 0 false c) =
             mk (Z.of_nat (a - i)) (Z.odd load && xorb c bias_in) (negb c)).
  { intros i Hi. rewrite Nat.iter_succ_r, tick_edge, <- Ha.
    now apply countdown_at. }
  destruct (Nat.leb_spec j a) as [Hle | Hgt].
  - destruct j as [| i]; [lia |]. rewrite E1 by lia.
    f_equal. lia.
  - destruct (Nat.eqb_spec j (a + 1)) as [He | Hne].
    + subst j. replace (a + 1)%nat with (S a) by lia.
      rewrite E1 by lia. f_equal. lia.
    + assert (Hx : ext c = 1%nat /\ j = S (S a)).
      { unfold ext in *. destruct (Z.odd load && xorb c bias_in); lia. }
      destruct Hx as [Hx ->]. rewrite Nat.iter_succ, E1 by lia.
      rewrite Nat.sub_diag. cbn [Z.of_nat].
      unfold ext in Hx.
      destruct (Z.odd load && xorb c bias_in); [| discriminate].
      apply tick_bias.
Qed.

Lemma next_edge (c : bool) :
  Nat.iter (Z.to_nat (load / 2) + 1 + ext c) tick (mk 0 false c) =
  mk 0 false (negb c).
Proof.
  rewrite after_edge by lia.
  replace (_ <=? _)%nat with false by (symmetry; apply Nat.leb_gt; lia).
  unfold ext. destruct (Z.odd load && xorb c bias_in).
  - replace (_ =? _)%nat with false by (symmetry; apply Nat.eqb_neq; lia).
    reflexivity.
  - now rewrite Nat.add_0_r, Nat.eqb_refl.
Qed.

Lemma between_edges (c : bool) (j : nat) :
  (1 <= j < Z.to_nat (load / 2) + 1 + ext c)%nat ->
  edge (Nat.iter j tick (mk 0 false c)) = false /\
  clk (Nat.iter j tick (mk 0 false c)) = negb c.
Proof.
  intros Hj. rewrite after_edge by lia.
  destruct (Nat.leb_spec j (Z.to_nat (load / 2))).
  - unfold edge, zero. cbn [cnt bias clk].
    replace (_ =? 0) with false by (symmetry; apply Z.eqb_neq; lia).
    now split.
  - unfold ext in Hj. unfold edge, zero.
    destruct (Nat.eqb_spec j (Z.to_nat (load / 2) + 1));
      destruct (Z.odd load && xorb c bias_in); cbn [cnt bias clk];
      try lia.
    now split.
Qed.

Lemma halves_sum (c : bool) :
  Z.of_nat (Z.to_nat (load / 2) + 1 + ext c
            + (Z.to_nat (load / 2) + 1 + ext (negb c))) = load + 2.
Proof.
  assert (Ha : Z.of_nat (Z.to_nat (load / 2)) = load / 2).
  { apply Z2Nat.id. apply Z.div_pos; lia. }
  pose proof (Z.div_mod load 2 ltac:(lia)) as Hd.
  rewrite Zmod_odd in Hd. unfold ext.
  destruct (Z.odd load); cbn [andb];
    [destruct c, bias_in; cbn [xorb negb] |]; lia.
Qed.

End ClockGen.

(** C8: with the generator enabled and the divisor [div] (even or odd, as
    [div_write] or [div_read] provide it) held at its load input, the
    state at an edge recurs after exactly [div + 2] ticks, with one more
    edge in between and none elsewhere, so the generated clock has a full
    period of [div + 2] system clock periods.  The two half periods are
    [div/2 + 1] ticks each for an even divisor; for an odd one the bias
    mechanism makes one of them [div/2 + 1] and the other [div/2 + 2]. *)
Theorem clock_divisor (width div : Z) (bias_in c : bool) :
  0 < width -> 0 <= div < 2 ^ width ->
  let tick := SPIClockGen.sync width div bias_in in
  let s := SPIClockGen.mk 0 false c in
  let ext (x : bool) :=
    if Z.odd div && xorb x bias_in then 1%nat else 0%nat in
  let h1 := (Z.to_nat (div / 2) + 1 + ext c)%nat in
  let h2 := (Z.to_nat (div / 2) + 1 + ext (negb c))%nat in
  Z.of_nat (h1 + h2) = div + 2 /\
  (Z.odd div = true -> (ext c + ext (negb c) = 1)%nat) /\
  (Z.odd div = false -> (ext c = 0 /\ ext (negb c) = 0)%nat) /\
  Nat.iter h1 tick s = SPIClockGen.mk 0 false (negb c) /\
  Nat.iter (h1 + h2) tick s = s /\
  (forall j, (0 < j < h1 + h2)%nat ->
     SPIClockGen.edge (Nat.iter j tick s) = (j =? h1)%nat) /\
  (forall j, (0 < j <= h1 + h2)%nat ->
     SPIClockGen.clk (Nat.iter j tick s) =
     if (j <=? h1)%nat then negb c else c).
Proof.
  intros Hw Hd tick s ext h1 h2.
  assert (N1 : Nat.iter h1 tick s = SPIClockGen.mk 0 false (negb c))
    by (apply next_edge; assumption).
  assert (N2 : Nat.iter h2 tick (SPIClockGen.mk 0 false (negb c)) = s).
  { pose proof (next_edge width div bias_in Hw Hd (negb c)) as N.
    rewrite negb_involutive in N. exact N. }
  assert (Split : forall j, (h1 <= j)%nat ->
            Nat.iter j tick s =
            Nat.iter (j - h1) tick (SPIClockGen.mk 0 false (negb c))).
  { intros j Hj. rewrite <- N1, <- Nat.iter_add. f_equal. lia. }
  split; [apply halves_sum with (width := width); assumption |].
  split; [intros Ho; subst ext; cbn beta; rewrite Ho;
          destruct c, bias_in; reflexivity |].
  split; [intros Ho; subst ext; cbn beta; rewrite Ho; now split |].
  split; [exact N1 |].
  split; [rewrite Split by lia; rewrite <- N2; f_equal; lia |].
  split.
  - intros j Hj. destruct (Nat.eqb_spec j h1) as [-> | Hne].
    + now rewrite N1.
    + destruct (Nat.ltb_spec j h1).
      * apply (between_edges width div bias_in Hw Hd c j). subst h1 h2 ext; cbn beta in *; lia.
      * rewrite Split by lia.
        apply (between_edges width div bias_in Hw Hd (negb c) (j - h1)).
        subst h1 h2 ext; cbn beta in *; lia.
  - intros j Hj. destruct (Nat.leb_spec j h1).
    + destruct (Nat.eqb_spec j h1) as [-> | Hne]; [now rewrite N1 |].
      apply (between_edges width div bias_in Hw Hd c j). subst h1 h2 ext; cbn beta in *; lia.
    + rewrite Split by lia.
      destruct (Nat.eqb_spec (j - h1) h2) as [E | Hne].
      * rewrite E, N2. reflexivity.
      * transitivity (negb (negb c)); [| apply negb_involutive].
        apply (between_edges width div bias_in Hw Hd (negb c) (j - h1)).
        subst h1 h2 ext; cbn beta in *; lia.
Qed.

Lemma clock_divisor_witness :
  0 < 8 /\ 0 <= 3 < 2 ^ 8 /\
  Nat.iter 5 (SPIClockGen.sync 8 3 true) (SPIClockGen.mk 0 false true) =
  SPIClockGen.mk 0 false true.
Proof.
  assert (H1 : 0 < 8) by lia.
  assert (H2 : 0 <= 3 < 2 ^ 8) by lia.
  split; [exact H1 |]. split; [exact H2 |].
  exact (proj1 (proj2 (proj2 (proj2 (proj2
           (clock_divisor 8 3 true true H1 H2)))))).
Defined.

(** ** The sequencer *)

Section Sequencer.
Import SPIMaster.
Variable has_miso : bool.

Lemma step_clk i s :
  SPIClockGen.clk (SPIMachine.cg (spi (step has_miso i s))) =
  if SPIMachine.edge (spi s) && (start s || spi_cs s)
  then negb (SPIClockGen.clk (SPIMachine.cg (spi s)))
  else SPIClockGen.clk (SPIMachine.cg (spi s)).
Proof.
  unfold step. cbn [spi SPIMachine.sync SPIMachine.cg].
  unfold SPIMachine.cg_ce, SPIClockGen.sync. fold (spi_cs s).
  unfold SPIMachine.edge.
  destruct (SPIClockGen.edge (SPIMachine.cg (spi s))), (start s), (spi_cs s);
    reflexivity.
Qed.

Lemma start_cases s :
  start s = true ->
  SPIMachine.fsm (spi s) = SPIMachine.IDLE \/ done s = true.
Proof.
  unfold start, spi_cs, SPIMachine.cs.
  destruct (SPIMachine.fsm (spi s)); cbn; auto;
    rewrite andb_true_iff; intros [_ H]; auto.
Qed.

Lemma done_cases s :
  done s = true ->
  SPIMachine.fsm (spi s) = SPIMachine.HOLD /\
  SPIMachine.edge (spi s) = true /\ SPIMachine.bits_done (spi s) = true.
Proof.
  unfold done, SPIMachine.done.
  destruct (SPIMachine.fsm (spi s)); cbn;
    rewrite ?andb_false_r; try discriminate.
  rewrite andb_true_r, andb_true_iff. tauto.
Qed.

Lemma step_bits_keep i s :
  start s = false -> SPIMachine.sample (spi s) = false ->
  SPIMachine.bits (spi (step has_miso i s)) = SPIMachine.bits (spi s).
Proof.
  intros Hs Hp. unfold step. cbn [spi SPIMachine.sync SPIMachine.bits].
  now rewrite Hs, Hp, andb_false_r.
Qed.

Lemma start_off s :
  SPIMachine.fsm (spi s) = SPIMachine.SETUP \/
  SPIMachine.fsm (spi s) = SPIMachine.WAIT ->
  start s = false.
Proof.
  unfold start, spi_cs, done, SPIMachine.cs, SPIMachine.done.
  intros [-> | ->]; cbn; now rewrite andb_false_r, andb_false_r.
Qed.

Lemma clk_aligned_step i s :
  clk_aligned s = true ->
  clock_config_stable s (step has_miso i s) ->
  clk_aligned (step has_miso i s) = true.
Proof.
  intros Hinv Hst. unfold clk_aligned in *.
  assert (Hk : start s = false ->
               SPIMachine.sample (spi s) = false ->
               SPIMachine.bits_done (spi (step has_miso i s)) =
               SPIMachine.bits_done (spi s)).
  { intros H1 H2. unfold SPIMachine.bits_done.
    now rewrite step_bits_keep. }
  pose proof (start_off s) as Hoff.
  unfold SPIMachine.sample in Hk.
  destruct Hst as [[Hp _] | [Hi Hi']].
  - rewrite Hp. clear Hp. revert Hk. rewrite step_clk, step_fsm.
    unfold spi_cs, SPIMachine.cs, SPIMachine.next_state.
    destruct (SPIMachine.fsm (spi s)) eqn:F;
      destruct (SPIMachine.edge (spi s));
      try (rewrite Hoff by auto);
      destruct (start s);
      destruct (Config.clk_phase (config s));
      destruct (SPIMachine.bits_done (spi s));
      destruct (SPIClockGen.clk (SPIMachine.cg (spi s)));
      cbn in *; intros Hk; try discriminate; try reflexivity;
      try (now rewrite Hk).
  - rewrite Hi'. rewrite andb_true_r. rewrite step_clk.
    rewrite step_fsm in Hi'. unfold SPIMachine.next_state in Hi'.
    unfold spi_cs, SPIMachine.cs. rewrite Hi in *.
    destruct (SPIMachine.edge (spi s)), (start s),
      (Config.clk_phase (config s)),
      (SPIClockGen.clk (SPIMachine.cg (spi s)));
      cbn in *; try discriminate; reflexivity.
Qed.

Lemma clk_aligned_quiet i s :
  clk_aligned s = true ->
  clock_config_stable s (step has_miso i s) ->
  clk_o (step has_miso i s) = clk_o s \/
  spi_cs (step has_miso i s) = spi_cs s.
Proof.
  intros Hinv Hst. unfold clk_aligned in Hinv.
  pose proof (start_off s) as Hoff.
  destruct Hst as [[Hp Hq] | [Hi Hi']].
  - unfold clk_o. rewrite Hq, step_clk.
    unfold spi_cs, SPIMachine.cs. rewrite step_fsm.
    unfold SPIMachine.next_state.
    destruct (SPIMachine.fsm (spi s)) eqn:F;
      destruct (SPIMachine.edge (spi s));
      try (rewrite Hoff by auto);
      destruct (start s);
      destruct (Config.clk_phase (config s));
      destruct (SPIMachine.bits_done (spi s));
      destruct (SPIClockGen.clk (SPIMachine.cg (spi s)));
      destruct (Config.clk_polarity (config s));
      cbn in *; try discriminate; auto.
  - right. unfold spi_cs, SPIMachine.cs. now rewrite Hi, Hi'.
Qed.
End Sequencer.

Section SequencerClaims.
Import SPIMaster.

Lemma chained_states has_miso io s n :
  done s = true -> pending s = true ->
  (forall j, (0 < j < S n)%nat -> done (run has_miso io j s) = false) ->
  SPIMachine.fsm (spi (run has_miso io (S n) s)) = SPIMachine.SETUP \/
  SPIMachine.fsm (spi (run has_miso io (S n) s)) = SPIMachine.HOLD.
Proof.
  intros Hd Hp. induction n as [| n IH]; intros Hq.
  - cbn [run]. rewrite step_fsm.
    destruct (done_cases s Hd) as (F & E & B).
    unfold SPIMachine.next_state, start.
    rewrite E, F, B, Hp, Hd. cbn. rewrite orb_true_r. now left.
  - assert (Hn : done (run has_miso io (S n) s) = false)
      by (apply Hq; lia).
    specialize (IH ltac:(intros j Hj; apply Hq; lia)).
    remember (run has_miso io (S n) s) as sn eqn:Esn.
    change (run has_miso io (S (S n)) s)
      with (step has_miso (io (S n) (run has_miso io (S n) s))
              (run has_miso io (S n) s)).
    rewrite <- Esn, step_fsm.
    unfold done, SPIMachine.done in Hn. unfold SPIMachine.next_state.
    destruct IH as [F | F]; rewrite F in *;
      destruct (SPIMachine.edge (spi sn)); auto.
    cbn in Hn. rewrite andb_true_r in Hn. rewrite Hn. cbn. now left.
Qed.

(** C3: when a transfer is pending at the [done] pulse of the active one,
    [start] is asserted and chip select stays asserted from that tick
    through every tick up to and including the next [done] pulse: the
    sequencer is in SETUP or HOLD all along and never passes through
    IDLE.  Chip select is released only on an edge where the bit counter
    is done and [start] is not asserted, in particular never on a [done]
    pulse with a transfer pending; on a [done] pulse with nothing pending
    the sequencer leaves for IDLE, directly or through WAIT. *)
Theorem chaining_invariant (has_miso : bool) :
  (forall io s,
     done s = true -> pending s = true ->
     start s = true /\
     forall n,
       (forall j, (0 < j < n)%nat -> done (run has_miso io j s) = false) ->
       spi_cs (run has_miso io n s) = true) /\
  (forall i s,
     spi_cs s = true -> spi_cs (step has_miso i s) = false ->
     start s = false /\ SPIMachine.edge (spi s) = true /\
     SPIMachine.bits_done (spi s) = true /\
     (done s = true -> pending s = false)) /\
  (forall i s,
     done s = true -> pending s = false ->
     SPIMachine.fsm (spi (step has_miso i s)) =
     if Config.clk_phase (config s) then SPIMachine.IDLE
     else SPIMachine.WAIT).
Proof.
  split; [| split].
  - intros io s Hd Hp. split.
    { unfold start. rewrite Hp, Hd. cbn. apply orb_true_r. }
    intros [| n] Hq.
    + cbn [run]. destruct (done_cases s Hd) as (F & _).
      unfold spi_cs, SPIMachine.cs. now rewrite F.
    + unfold spi_cs, SPIMachine.cs.
      destruct (chained_states has_miso io s n Hd Hp Hq) as [F | F];
        now rewrite F.
  - intros i s Hc Hr.
    assert (H3 : start s = false /\ SPIMachine.edge (spi s) = true /\
                 SPIMachine.bits_done (spi s) = true).
    { unfold spi_cs, SPIMachine.cs in Hc, Hr.
      rewrite step_fsm in Hr. unfold SPIMachine.next_state in Hr.
      pose proof (start_off s) as Hoff.
      destruct (SPIMachine.fsm (spi s)) eqn:F;
        destruct (SPIMachine.edge (spi s));
        try (rewrite Hoff in * by auto);
        destruct (start s);
        destruct (SPIMachine.bits_done (spi s));
        destruct (Config.clk_phase (config s));
        cbn in *; try discriminate; repeat split. }
    destruct H3 as (Hs & He & Hb). repeat split; trivial.
    intros Hd. unfold start in Hs. rewrite Hd, orb_true_r in Hs.
    now rewrite andb_true_r in Hs.
  - intros i s Hd Hp. rewrite step_fsm.
    destruct (done_cases s Hd) as (F & E & B).
    unfold SPIMachine.next_state, start. rewrite E, F, B, Hp. reflexivity.
Qed.

Lemma chaining_invariant_witness :
  let s := mk (SPIMachine.mk (SPIClockGen.mk 0 false true) 5
                 (SPIBitCounter.mk 0 0) SPIMachine.HOLD false)
              true 1 0 9 (Xfer.mk 1 2 0 0 0) Config.reset false in
  done s = true /\ pending s = true /\
  spi_cs (run true (fun _ => loopback_idle) 3 s) = true.
Proof.
  intros s.
  assert (Hd : done s = true) by reflexivity.
  assert (Hp : pending s = true) by reflexivity.
  split; [exact Hd |]. split; [exact Hp |].
  apply (proj2 (proj1 (chaining_invariant true)
                  (fun _ => loopback_idle) s Hd Hp) 3%nat).
  intros j Hj.
  destruct j as [| [| [| j]]]; [lia | reflexivity | reflexivity | lia].
Defined.

Lemma clk_aligned_run has_miso io n :
  (forall j, (j < n)%nat ->
     clock_config_stable (run has_miso io j reset)
                         (run has_miso io (S j) reset)) ->
  clk_aligned (run has_miso io n reset) = true.
Proof.
  induction n as [| n IH]; intros H; [reflexivity |].
  cbn [run]. apply clk_aligned_step.
  - apply IH. intros j Hj. apply H. lia.
  - apply (H n). lia.
Qed.

(** In every execution from reset in which [clk_phase] and
    [clk_polarity] are rewritten only while the sequencer is and stays
    idle, whatever their values, no tick both changes the level of the
    serial clock line and changes the sequencer's chip-select flag
    [spi.cs], which is asserted when the first transfer of a chain starts
    and released when the last one ends.  (The chip-select pins also
    depend on the latched mask, which a chained start may change.) *)
Theorem no_coincident_edges (has_miso : bool)
    (io : nat -> t -> inputs) (n : nat) :
  (forall j, (j <= n)%nat ->
     clock_config_stable (run has_miso io j reset)
                         (run has_miso io (S j) reset)) ->
  clk_o (run has_miso io (S n) reset) = clk_o (run has_miso io n reset) \/
  spi_cs (run has_miso io (S n) reset) = spi_cs (run has_miso io n reset).
Proof.
  intros H. cbn [run]. apply clk_aligned_quiet.
  - apply clk_aligned_run. intros j Hj. apply H. lia.
  - apply (H n). lia.
Qed.

Lemma no_coincident_edges_witness :
  let io := io_phase_then_data 5 in
  (forall j, (j <= 6)%nat ->
     clock_config_stable (run true io j reset) (run true io (S j) reset)) /\
  (clk_o (run true io 7 reset) = clk_o (run true io 6 reset) \/
   spi_cs (run true io 7 reset) = spi_cs (run true io 6 reset)).
Proof.
  intros io.
  assert (H : forall j, (j <= 6)%nat ->
            clock_config_stable (run true io j reset)
                                (run true io (S j) reset)).
  { intros j Hj.
    destruct j as [| [| [| [| [| [| [| j]]]]]]];
      first [ left; split; reflexivity
            | right; split; reflexivity
            | lia ]. }
  split; [exact H |].
  exact (no_coincident_edges true io 6 H).
Defined.

(** When the host sets [clk_phase] while a transfer runs, the sequencer
    leaves HOLD for IDLE with the clock register high, and the clock line
    falls on the tick that releases chip select. *)
Lemma no_coincident_edges_counterexample :
  ~ (forall (io : nat -> t -> inputs) (n : nat),
        clk_o (run true io (S n) reset) = clk_o (run true io n reset) \/
        spi_cs (run true io (S n) reset) = spi_cs (run true io n reset)).
Proof.
  intros H. specialize (H io_rephase 4%nat).
  vm_compute in H. destruct H as [H | H]; discriminate H.
Qed.

End SequencerClaims.

(** ** Executions without bus traffic *)

Section Runs.
Import SPIMaster.
Variable has_miso : bool.

Lemma run_S_first io k s :
  run has_miso io (S k) s =
  run has_miso (fun j => io (S j)) k (step has_miso (io O s) s).
Proof.
  induction k as [| k IH]; [reflexivity |].
  change (run has_miso io (S (S k)) s)
    with (step has_miso (io (S k) (run has_miso io (S k) s))
            (run has_miso io (S k) s)).
  now rewrite IH.
Qed.

Lemma run_add io a b s :
  run has_miso io (a + b) s =
  run has_miso (fun j => io (a + j)%nat) b (run has_miso io a s).
Proof.
  induction b as [| b IH].
  - now rewrite Nat.add_0_r.
  - rewrite Nat.add_succ_r. cbn [run]. now rewrite IH.
Qed.

Lemma cg_no_edge load b c :
  SPIClockGen.edge c = false ->
  0 <= SPIClockGen.cnt c < 2 ^ clock_width ->
  let c' := SPIClockGen.sync clock_width load b c in
  0 <= SPIClockGen.cnt c' < 2 ^ clock_width /\
  (2 * Z.to_nat (SPIClockGen.cnt c')
   + (if SPIClockGen.bias c' then 1 else 0)
   < 2 * Z.to_nat (SPIClockGen.cnt c)
     + (if SPIClockGen.bias c then 1 else 0))%nat.
Proof.
  destruct c as [n bb k]. unfold SPIClockGen.sync, SPIClockGen.edge,
    SPIClockGen.zero. cbn [SPIClockGen.cnt SPIClockGen.bias SPIClockGen.clk].
  intros He Hr. rewrite He.
  cbn [SPIClockGen.cnt SPIClockGen.bias SPIClockGen.clk].
  destruct (Z.eqb_spec n 0) as [-> | Hn].
  - destruct bb; [| discriminate]. cbn. split; lia.
  - unfold Bits.trunc. rewrite Z.mod_small by lia. split; [lia |].
    destruct bb; lia.
Qed.

Lemma tick_no_edge i s f d nr nw p l r :
  cyc i && stb i = false ->
  in_flight s f d nr nw p l r -> f <> SPIMachine.IDLE ->
  SPIMachine.edge (spi s) = false ->
  in_flight (step has_miso i s) f d nr nw p l r /\
  (cg_measure (step has_miso i s) < cg_measure s)%nat /\
  done s = false.
Proof.
  intros Hq (Hf & Hd & Hb & Hp & Ha & Hph & Hl & Hr & Hc) Hne He.
  unfold in_flight, cg_measure, done, SPIMachine.done.
  unfold step, start, spi_cs, done, SPIMachine.done, SPIMachine.cs.
  rewrite He, Hp, Ha, Hq.
  cbn [spi pending ack config data_read SPIMachine.sync SPIMachine.fsm
       SPIMachine.reg SPIMachine.bits SPIMachine.cg andb
       Config.set_pending Config.set_active Config.clk_phase
       Config.lsb_first].
  unfold SPIMachine.cg_ce. rewrite He. cbn [negb orb].
  rewrite orb_true_r.
  destruct (cg_no_edge
              (SPIMachine.cg_load (Config.div_write (config s))
                 (Config.div_read (config s)) (spi s))
              (Config.clk_phase (config s)) (SPIMachine.cg (spi s))
              He Hc) as [Hc' Hm].
  repeat split; trivial; apply Hc'.
Qed.

Lemma wait_edge (m : nat) :
  forall io s f d nr nw p l r,
    quiet io -> (cg_measure s <= m)%nat ->
    in_flight s f d nr nw p l r -> f <> SPIMachine.IDLE ->
    exists k,
      (forall j, (j <= k)%nat ->
         in_flight (run has_miso io j s) f d nr nw p l r) /\
      SPIMachine.edge (spi (run has_miso io k s)) = true /\
      forall j, (j < k)%nat ->
        SPIMachine.edge (spi (run has_miso io j s)) = false.
Proof.
  induction m as [| m IH]; intros io s f d nr nw p l r Hq Hm Hin Hf.
  - exists O. split; [| split]; [| | intros j Hj; lia].
    + intros j Hj. replace j with O by lia. exact Hin.
    + unfold cg_measure in Hm.
      destruct Hin as (_ & _ & _ & _ & _ & _ & _ & _ & Hc).
      cbn [run].
      unfold SPIMachine.edge, SPIClockGen.edge, SPIClockGen.zero.
      destruct (SPIClockGen.bias (SPIMachine.cg (spi s))); [lia |].
      replace (SPIClockGen.cnt (SPIMachine.cg (spi s))) with 0 by lia.
      reflexivity.
  - destruct (SPIMachine.edge (spi s)) eqn:He.
    + exists O. split; [| split]; [| exact He | intros j Hj; lia].
      intros j Hj. replace j with O by lia. exact Hin.
    + destruct (tick_no_edge (io O s) s f d nr nw p l r (Hq O s) Hin Hf He)
        as (Hin' & Hlt & Hdn).
      destruct (IH (fun j => io (S j)) (step has_miso (io O s) s)
                  f d nr nw p l r)
        as (k & Hk & Hek & Hqk); trivial.
      * intros j s0. apply Hq.
      * lia.
      * exists (S k). split; [| split].
        -- intros [| j] Hj; [exact Hin |].
           rewrite run_S_first. apply Hk. lia.
        -- rewrite run_S_first. exact Hek.
        -- intros [| j] Hj; [exact He |].
           rewrite run_S_first. apply Hqk. lia.
Qed.

Lemma cg_edge_range load b c :
  SPIClockGen.edge c = true ->
  0 <= SPIClockGen.cnt (SPIClockGen.sync clock_width load b c)
    < 2 ^ clock_width.
Proof.
  intros He. unfold SPIClockGen.sync. rewrite He. cbn [SPIClockGen.cnt].
  pose proof (inrange_slice load 1 clock_width ltac:(unfold clock_width; lia))
    as H.
  unfold Bits.inrange, clock_width in *. cbn in *. lia.
Qed.

Lemma tick_edge_in_flight i s f d nr nw p l r :
  cyc i && stb i = false ->
  in_flight s f d nr nw p l r ->
  SPIMachine.edge (spi s) = true ->
  let m := spi s in
  let s' := step has_miso i s in
  SPIMachine.fsm (spi s') = SPIMachine.next_state false p m /\
  SPIMachine.reg (spi s') =
    SPIRegister.sync data_width l (SPIMachine.shift false m)
      (SPIMachine.sample m) (reg_i has_miso i s) d d /\
  SPIMachine.bits (spi s') =
    (if SPIMachine.sample m
     then SPIBitCounter.sync bits_width (SPIBitCounter.mk nr nw)
            (SPIBitCounter.mk nr nw)
     else SPIBitCounter.mk nr nw) /\
  pending s' = false /\ ack s' = false /\
  Config.clk_phase (config s') = p /\
  Config.lsb_first (config s') = l /\
  data_read s' = (if done s then d else r) /\
  0 <= SPIClockGen.cnt (SPIMachine.cg (spi s')) < 2 ^ clock_width.
Proof.
  intros Hq (Hf & Hd & Hb & Hp & Ha & Hph & Hl & Hr & Hc) He m s'.
  subst m s'.
  assert (Hs : start s = false) by (unfold start; now rewrite Hp).
  unfold step, lsb.
  cbn [spi pending ack config data_read SPIMachine.sync SPIMachine.fsm
       SPIMachine.reg SPIMachine.bits SPIMachine.cg
       Config.set_pending Config.set_active Config.clk_phase
       Config.lsb_first].
  rewrite Hs, He, Hp, Ha, Hq, Hph, Hl, Hd, Hb, Hr. cbn [andb].
  repeat split; trivial.
  - unfold SPIMachine.cg_ce. rewrite He. cbn [negb orb].
    destruct (SPIMachine.cs (spi s)); cbn [orb].
    + now apply cg_edge_range.
    + apply Hc.
  - unfold SPIMachine.cg_ce. rewrite He. cbn [negb orb].
    destruct (SPIMachine.cs (spi s)); cbn [orb].
    + now apply cg_edge_range.
    + apply Hc.
Qed.

Lemma step_config_no_ack i s :
  ack s = false ->
  Config.clk_phase (config (step has_miso i s)) =
    Config.clk_phase (config s) /\
  Config.lsb_first (config (step has_miso i s)) =
    Config.lsb_first (config s).
Proof.
  intros Ha. unfold step. cbn [config]. rewrite Ha. now split.
Qed.

Lemma step_cnt_range i s :
  start s = true \/
  (0 <= SPIClockGen.cnt (SPIMachine.cg (spi s)) < 2 ^ clock_width) ->
  SPIMachine.edge (spi s) = true ->
  0 <= SPIClockGen.cnt (SPIMachine.cg (spi (step has_miso i s)))
    < 2 ^ clock_width.
Proof.
  intros H He. unfold step. cbn [spi SPIMachine.sync SPIMachine.cg].
  unfold SPIMachine.cg_ce. rewrite He. cbn [negb].
  rewrite orb_false_r.
  destruct H as [-> | Hc].
  - cbn [orb]. now apply cg_edge_range.
  - destruct (start s || SPIMachine.cs (spi s));
      [now apply cg_edge_range | exact Hc].
Qed.

Lemma tick_idle_start i s :
  cyc i && stb i = false ->
  SPIMachine.fsm (spi s) = SPIMachine.IDLE ->
  SPIMachine.edge (spi s) = true ->
  pending s = true -> ack s = false ->
  in_flight (step has_miso i s)
    (if Config.clk_phase (config s) then SPIMachine.WAIT
     else SPIMachine.SETUP)
    (data_write s) (Xfer.read_length (xfer s)) (Xfer.write_length (xfer s))
    (Config.clk_phase (config s)) (Config.lsb_first (config s))
    (data_read s) /\
  done s = false.
Proof.
  intros Hq Hf He Hp Ha.
  assert (Hd : done s = false).
  { unfold done, SPIMachine.done. rewrite Hf. cbn. apply andb_false_r. }
  assert (Hs : start s = true).
  { unfold start, spi_cs, SPIMachine.cs. now rewrite Hp, Hf. }
  split; [| exact Hd].
  destruct (step_config_no_ack i s Ha) as [Hph Hl].
  unfold in_flight.
  split. { rewrite step_fsm, He. unfold SPIMachine.next_state.
           now rewrite Hf, Hs. }
  split. { now apply step_reg_start. }
  split. { unfold step. cbn [spi SPIMachine.sync SPIMachine.bits].
           unfold SPIMachine.sample. rewrite Hs, Hf, He. reflexivity. }
  split. { rewrite step_pending, Ha, Hs. reflexivity. }
  split. { rewrite step_ack, Ha, Hq. reflexivity. }
  split; [exact Hph |]. split; [exact Hl |].
  split. { now rewrite step_data_read, Hd. }
  apply step_cnt_range; auto.
Qed.

(** Nothing pending, no bus traffic, and the sequencer idle or waiting
    with the bit counter done: no [done] pulse now, and the same holds
    after the tick. *)
Lemma winding_down_step i s :
  cyc i && stb i = false ->
  ack s = false -> pending s = false ->
  SPIMachine.fsm (spi s) = SPIMachine.IDLE \/
  (SPIMachine.fsm (spi s) = SPIMachine.WAIT /\
   SPIMachine.bits_done (spi s) = true) ->
  done s = false /\
  ack (step has_miso i s) = false /\
  pending (step has_miso i s) = false /\
  (SPIMachine.fsm (spi (step has_miso i s)) = SPIMachine.IDLE \/
   (SPIMachine.fsm (spi (step has_miso i s)) = SPIMachine.WAIT /\
    SPIMachine.bits_done (spi (step has_miso i s)) = true)).
Proof.
  intros Hq Ha Hp Hf.
  assert (Hs : start s = false) by (unfold start; now rewrite Hp).
  assert (Hsm : SPIMachine.sample (spi s) = false).
  { unfold SPIMachine.sample. destruct Hf as [-> | [-> _]]; reflexivity. }
  assert (Hd : done s = false).
  { unfold done, SPIMachine.done.
    destruct Hf as [-> | [-> _]]; apply andb_false_r. }
  assert (Hb : SPIMachine.bits_done (spi (step has_miso i s)) =
               SPIMachine.bits_done (spi s)).
  { unfold SPIMachine.bits_done. now rewrite step_bits_keep. }
  rewrite Hb, step_ack, step_pending, step_fsm, Ha, Hs, Hp, Hq.
  cbn [andb]. unfold SPIMachine.next_state.
  split; [exact Hd |]. split; [reflexivity |]. split; [reflexivity |].
  destruct Hf as [Hf | [Hf Hbd]]; rewrite Hf.
  - destruct (SPIMachine.edge (spi s)); now left.
  - rewrite Hbd. destruct (SPIMachine.edge (spi s)); [now left | now right].
Qed.

Lemma winding_down_run io n s :
  quiet io ->
  ack s = false -> pending s = false ->
  SPIMachine.fsm (spi s) = SPIMachine.IDLE \/
  (SPIMachine.fsm (spi s) = SPIMachine.WAIT /\
   SPIMachine.bits_done (spi s) = true) ->
  done (run has_miso io n s) = false.
Proof.
  intros Hq Ha Hp Hf.
  enough (H : ack (run has_miso io n s) = false /\
              pending (run has_miso io n s) = false /\
              (SPIMachine.fsm (spi (run has_miso io n s)) = SPIMachine.IDLE \/
               (SPIMachine.fsm (spi (run has_miso io n s)) = SPIMachine.WAIT /\
                SPIMachine.bits_done (spi (run has_miso io n s)) = true))).
  { destruct H as (Ha' & Hp' & Hf').
    now destruct (winding_down_step (io n (run has_miso io n s)) _
                    (Hq _ _) Ha' Hp' Hf'). }
  induction n as [| n IH]; [now repeat split |].
  destruct IH as (Ha' & Hp' & Hf'). cbn [run].
  now destruct (winding_down_step (io n (run has_miso io n s)) _
                  (Hq _ _) Ha' Hp' Hf').
Qed.

Lemma data_read_unchanged io n s :
  (forall j, (j < n)%nat -> done (run has_miso io j s) = false) ->
  data_read (run has_miso io n s) = data_read s.
Proof.
  induction n as [| n IH]; intros H; [reflexivity |].
  cbn [run]. rewrite step_data_read, H by lia.
  apply IH. intros j Hj. apply H. lia.
Qed.

Lemma done_pulses_none io n s :
  (forall j, (j < n)%nat -> done (run has_miso io j s) = false) ->
  done_pulses has_miso io n s = O.
Proof.
  induction n as [| n IH]; intros H; [reflexivity |].
  cbn [done_pulses]. rewrite H, IH by (try intros j Hj; try apply H; lia).
  reflexivity.
Qed.

End Runs.

Section ZeroLength.
Import SPIMaster.

(** C5 (as the code has it): a transfer started with both lengths zero
    while [clk_phase] = 1 takes the sequencer from IDLE to WAIT and, on the
    next edge, back to IDLE without ever entering HOLD: chip select is
    asserted and released, the [done] signal does not pulse at all, and
    the readable data value stays as it was. *)
Theorem zero_length_phase1 (has_miso : bool)
    (io : nat -> t -> inputs) (s : t) :
  quiet io ->
  SPIMachine.fsm (spi s) = SPIMachine.IDLE ->
  SPIMachine.edge (spi s) = true ->
  pending s = true -> ack s = false ->
  Config.clk_phase (config s) = true ->
  Xfer.write_length (xfer s) = 0 -> Xfer.read_length (xfer s) = 0 ->
  (exists k, (0 < k)%nat /\
     (forall j, (0 < j <= k)%nat ->
        SPIMachine.fsm (spi (run has_miso io j s)) = SPIMachine.WAIT) /\
     SPIMachine.fsm (spi (run has_miso io (S k) s)) = SPIMachine.IDLE /\
     pending (run has_miso io (S k) s) = false) /\
  (forall n,
     done (run has_miso io n s) = false /\
     done_pulses has_miso io n s = O /\
     data_read (run has_miso io n s) = data_read s).
Proof.
  intros Hq Hf He Hp Ha Hph Hwl Hrl.
  destruct (tick_idle_start has_miso (io O s) s (Hq O s) Hf He Hp Ha)
    as [Hin Hd0].
  rewrite Hph, Hwl, Hrl in Hin.
  pose (s1 := step has_miso (io O s) s).
  set (io1 := fun j => io (S j)).
  assert (Hq1 : quiet io1) by (intros j s0; apply Hq).
  assert (Hdone : forall n, done (run has_miso io n s) = false).
  { intros [| n]; [exact Hd0 |]. rewrite run_S_first.
    destruct Hin as (F & _ & B & P & A & _).
    apply winding_down_run; trivial.
    right. split; [exact F |].
    unfold SPIMachine.bits_done. now rewrite B. }
  split.
  - destruct (wait_edge has_miso (cg_measure s1) io1 s1 SPIMachine.WAIT
                (data_write s) 0 0 true (Config.lsb_first (config s))
                (data_read s) Hq1 (le_n _) Hin ltac:(discriminate))
      as (k1 & Hk & Hek & _).
    subst io1 s1.
    exists (S k1). split; [lia |]. split.
    + intros [| j] Hj; [lia |]. rewrite run_S_first.
      apply (Hk j). lia.
    + change (run has_miso io (S (S k1)) s)
        with (step has_miso (io (S k1) (run has_miso io (S k1) s))
                (run has_miso io (S k1) s)).
      generalize (io (S k1) (run has_miso io (S k1) s)) (Hq (S k1) (run has_miso io (S k1) s)).
      rewrite run_S_first. intros i Hi.
      pose proof (Hk k1 (le_n _)) as Hin2.
      destruct (tick_edge_in_flight has_miso i _ _ _ _ _ _ _ _ Hi Hin2 Hek)
        as (F' & _ & _ & P' & _).
      split; [| exact P'].
      rewrite F'. unfold SPIMachine.next_state, SPIMachine.bits_done.
      destruct Hin2 as (F & _ & B & _). now rewrite F, B.
  - intros n. split; [apply Hdone |]. split.
    + apply done_pulses_none. intros j _. apply Hdone.
    + apply data_read_unchanged. intros j _. apply Hdone.
Qed.

End ZeroLength.

Section ZeroLengthInstances.
Import SPIMaster.

Lemma zero_length_phase1_witness :
  let io := fun (_ : nat) => loopback_idle in
  let s := mk SPIMachine.reset true 0 3 5 Xfer.reset
              (Config.mk true false false false false true false false
                         0 0 0) false in
  quiet io /\
  SPIMachine.fsm (spi s) = SPIMachine.IDLE /\
  SPIMachine.edge (spi s) = true /\
  pending s = true /\ ack s = false /\
  Config.clk_phase (config s) = true /\
  Xfer.write_length (xfer s) = 0 /\ Xfer.read_length (xfer s) = 0 /\
  done_pulses true io 8 s = O.
Proof.
  intros io s.
  assert (Hq : quiet io) by (intros j s0; reflexivity).
  split; [exact Hq |].
  split; [reflexivity |]. split; [reflexivity |]. split; [reflexivity |].
  split; [reflexivity |]. split; [reflexivity |]. split; [reflexivity |].
  split; [reflexivity |].
  exact (proj1 (proj2 (proj2 (zero_length_phase1 true io s Hq eq_refl
                                eq_refl eq_refl eq_refl eq_refl eq_refl
                                eq_refl) 8%nat))).
Defined.

(** C5 as the specification words it (one [done] pulse) fails: from reset,
    a host that sets [clk_phase] and then writes the data register with
    both lengths zero gets chip select asserted at tick 5 and released at
    tick 6, nothing left pending, and no [done] pulse. *)
Lemma zero_length_phase1_counterexample :
  let io := io_phase_then_data 5 in
  Config.clk_phase (config (run true io 4 reset)) = true /\
  Xfer.write_length (xfer (run true io 4 reset)) = 0 /\
  Xfer.read_length (xfer (run true io 4 reset)) = 0 /\
  start (run true io 4 reset) = true /\
  spi_cs (run true io 5 reset) = true /\
  spi_cs (run true io 6 reset) = false /\
  pending (run true io 6 reset) = false /\
  (forall n, done_pulses true io n reset <> 1%nat).
Proof.
  intros io. repeat (split; [reflexivity |]).
  intros n.
  assert (H : forall j, done (run true io j reset) = false).
  { intros j.
    destruct (Nat.le_gt_cases j 6) as [Hle | Hgt].
    - do 7 (destruct j as [| j]; [reflexivity |]). lia.
    - replace j with (6 + (j - 6))%nat by lia.
      rewrite run_add. apply winding_down_run.
      + intros k s0. unfold io, io_phase_then_data.
        replace (6 + k <? 2)%nat with false
          by (symmetry; apply Nat.ltb_ge; lia).
        replace (6 + k <? 4)%nat with false
          by (symmetry; apply Nat.ltb_ge; lia).
        reflexivity.
      + reflexivity.
      + reflexivity.
      + left. reflexivity. }
  rewrite done_pulses_none by (intros j _; apply H). discriminate.
Qed.

End ZeroLengthInstances.

(** ** The reference model, bit by bit *)

Section Reference.
Import Bits Test.
Variable w : Z.
Hypothesis Hw : 2 <= w.

Lemma testbit_one i : 0 <= i -> Z.testbit 1 i = (i =? 0).
Proof.
  intros Hi. change 1 with (Z.ones 1).
  rewrite Z.testbit_ones_nonneg by lia.
  destruct (Z.ltb_spec i 1), (Z.eqb_spec i 0); trivial; lia.
Qed.

Lemma top_bit x :
  inrange w x -> Z.shiftr x (w - 1) = Z.b2z (Z.testbit x (w - 1)).
Proof.
  intros Hx. apply Z.bits_inj'. intros i Hi.
  rewrite Z.shiftr_spec by lia.
  destruct (Z.eqb_spec i 0) as [-> | Hne].
  - now rewrite Z.b2z_bit0.
  - rewrite (inrange_testbit_high w x) by (trivial; lia).
    destruct (Z.testbit x (w - 1)); cbn [Z.b2z].
    + rewrite testbit_one by lia. symmetry. apply Z.eqb_neq. lia.
    + now rewrite Z.bits_0.
Qed.

Lemma low_bit x : Z.land x 1 = Z.b2z (Z.testbit x 0).
Proof.
  change 1 with (Z.ones 1). rewrite Z.land_ones by lia.
  change (2 ^ 1) with 2. rewrite Z.bit0_mod. reflexivity.
Qed.

Lemma sample_test x :
  inrange w x ->
  (Z.lxor (Z.shiftr x (w - 1)) (Z.land x 1) =? 0) =
  Bool.eqb (Z.testbit x (w - 1)) (Z.testbit x 0).
Proof.
  intros Hx. rewrite top_bit, low_bit by assumption.
  now destruct (Z.testbit x (w - 1)), (Z.testbit x 0).
Qed.

Lemma sampl_bits x i :
  inrange w x -> 0 <= i ->
  Z.testbit (_sampl x w) i =
  if i =? 0 then Z.testbit x (w - 1) else Z.testbit x i.
Proof.
  intros Hx Hi. unfold _sampl. rewrite sample_test by assumption.
  destruct (Z.eqb_spec i 0) as [-> | Hne].
  - destruct (Z.testbit x (w - 1)) eqn:A, (Z.testbit x 0) eqn:B;
      cbn [Bool.eqb]; rewrite ?Z.lxor_spec, ?testbit_one by lia;
      rewrite ?A, ?B; reflexivity.
  - destruct (Bool.eqb _ _); trivial.
    rewrite Z.lxor_spec, testbit_one by lia.
    replace (i =? 0) with false by (symmetry; apply Z.eqb_neq; lia).
    apply xorb_false_r.
Qed.

Lemma sampr_bits x i :
  inrange w x -> 0 <= i ->
  Z.testbit (_sampr x w) i =
  if i =? w - 1 then Z.testbit x 0 else Z.testbit x i.
Proof.
  intros Hx Hi. unfold _sampr. rewrite sample_test by assumption.
  assert (P : Z.testbit (Z.shiftl 1 (w - 1)) i = (i =? w - 1)).
  { rewrite Z.shiftl_1_l, Z.pow2_bits_eqb by lia. apply Z.eqb_sym. }
  destruct (Z.eqb_spec i (w - 1)) as [-> | Hne].
  - destruct (Z.testbit x (w - 1)) eqn:A, (Z.testbit x 0) eqn:B;
      cbn [Bool.eqb]; rewrite ?Z.lxor_spec, ?P, ?A, ?B; reflexivity.
  - destruct (Bool.eqb _ _); trivial.
    rewrite Z.lxor_spec, P. apply xorb_false_r.
Qed.

Lemma mask_ones : Z.shiftl 1 w - 1 = Z.ones w.
Proof. unfold Z.ones. now rewrite Z.sub_1_r. Qed.

Lemma rol_bits x i :
  0 <= i ->
  Z.testbit (_rol x w) i =
  if i =? 0 then Z.testbit x (w - 1)
  else if i <? w then Z.testbit x (i - 1) else false.
Proof.
  intros Hi. unfold _rol. rewrite mask_ones.
  rewrite Z.lor_spec, Z.land_spec, Z.shiftr_spec, Z.land_spec by lia.
  rewrite Z.shiftl_spec by lia. rewrite !Z.testbit_ones_nonneg by lia.
  destruct (Z.eqb_spec i 0) as [-> | Hne].
  - rewrite Z.testbit_neg_r by lia. cbn [andb orb].
    replace (0 + (w - 1)) with (w - 1) by lia.
    replace (w - 1 <? w) with true by (symmetry; apply Z.ltb_lt; lia).
    apply andb_true_r.
  - replace (i + (w - 1) <? w) with false
      by (symmetry; apply Z.ltb_ge; lia).
    rewrite andb_false_r, orb_false_r.
    destruct (i <? w); [apply andb_true_r | apply andb_false_r].
Qed.

Lemma ror_bits x i :
  0 <= i ->
  Z.testbit (_ror x w) i =
  if i =? w - 1 then Z.testbit x 0
  else if i <? w - 1 then Z.testbit x (i + 1) else false.
Proof.
  intros Hi. unfold _ror. rewrite mask_ones.
  rewrite Z.lor_spec, Z.land_spec, Z.shiftr_spec, Z.land_spec by lia.
  rewrite Z.shiftl_spec by lia. rewrite !Z.testbit_ones_nonneg by lia.
  destruct (Z.eqb_spec i (w - 1)) as [-> | Hne].
  - replace (w - 1 - (w - 1)) with 0 by lia.
    replace (w - 1 <? w) with true by (symmetry; apply Z.ltb_lt; lia).
    replace (w - 1 + 1 <? w) with false by (symmetry; apply Z.ltb_ge; lia).
    now rewrite andb_true_r, andb_false_r, orb_false_r.
  - destruct (Z.ltb_spec i (w - 1)).
    + rewrite (Z.testbit_neg_r _ (i - (w - 1))) by lia. cbn [andb orb].
      replace (i + 1 <? w) with true by (symmetry; apply Z.ltb_lt; lia).
      apply andb_true_r.
    + replace (i + 1 <? w) with false by (symmetry; apply Z.ltb_ge; lia).
      replace (i <? w) with false by (symmetry; apply Z.ltb_ge; lia).
      now rewrite !andb_false_r.
Qed.

Lemma rol_inrange x : inrange w (_rol x w).
Proof.
  apply inrange_of_bits; [lia |]. intros i Hi. rewrite rol_bits by lia.
  replace (i =? 0) with false by (symmetry; apply Z.eqb_neq; lia).
  now replace (i <? w) with false by (symmetry; apply Z.ltb_ge; lia).
Qed.

Lemma ror_inrange x : inrange w (_ror x w).
Proof.
  apply inrange_of_bits; [lia |]. intros i Hi. rewrite ror_bits by lia.
  replace (i =? w - 1) with false by (symmetry; apply Z.eqb_neq; lia).
  now replace (i <? w - 1) with false by (symmetry; apply Z.ltb_ge; lia).
Qed.

Lemma sampl_inrange x : inrange w x -> inrange w (_sampl x w).
Proof.
  intros Hx. apply inrange_of_bits; [lia |]. intros i Hi.
  rewrite sampl_bits by (trivial; lia).
  replace (i =? 0) with false by (symmetry; apply Z.eqb_neq; lia).
  now apply inrange_testbit_high with (w := w).
Qed.

Lemma sampr_inrange x : inrange w x -> inrange w (_sampr x w).
Proof.
  intros Hx. apply inrange_of_bits; [lia |]. intros i Hi.
  rewrite sampr_bits by (trivial; lia).
  replace (i =? w - 1) with false by (symmetry; apply Z.eqb_neq; lia).
  now apply inrange_testbit_high with (w := w).
Qed.

Lemma sampl_closed x :
  inrange w x ->
  Z.testbit (_sampl x w) 0 = Z.testbit (_sampl x w) (w - 1).
Proof.
  intros Hx. rewrite !sampl_bits by (trivial; lia). cbn [Z.eqb].
  now replace (w - 1 =? 0) with false by (symmetry; apply Z.eqb_neq; lia).
Qed.

Lemma sampr_closed x :
  inrange w x ->
  Z.testbit (_sampr x w) 0 = Z.testbit (_sampr x w) (w - 1).
Proof.
  intros Hx. rewrite !sampr_bits by (trivial; lia).
  rewrite Z.eqb_refl.
  now replace (0 =? w - 1) with false by (symmetry; apply Z.eqb_neq; lia).
Qed.

(** The register's sample edge, looped back, is the reference sample. *)
Lemma hw_sample lsb x :
  inrange w x ->
  SPIRegister.sync w lsb false true (SPIRegister.o w lsb x) x x =
  if lsb then _sampr x w else _sampl x w.
Proof.
  intros Hx. apply Z.bits_inj'. intros i Hi.
  rewrite sample_bits by lia. unfold SPIRegister.o.
  destruct lsb.
  - now rewrite sampr_bits.
  - now rewrite sampl_bits.
Qed.

(** The register's shift edge is the reference rotation on a value whose
    two end bits agree, as they do after a looped-back sample. *)
Lemma hw_shift lsb i x :
  inrange w x -> Z.testbit x 0 = Z.testbit x (w - 1) ->
  SPIRegister.sync w lsb true false i x x =
  if lsb then _ror x w else _rol x w.
Proof.
  intros Hx Hc. apply Z.bits_inj'. intros j Hj. destruct lsb.
  - rewrite shift_bits_lsb, ror_bits by lia.
    destruct (Z.eqb_spec j (w - 1)) as [-> | Hne].
    + replace (w - 1 <? w - 1) with false
        by (symmetry; apply Z.ltb_ge; lia).
      now symmetry.
    + destruct (Z.ltb_spec j (w - 1)); trivial.
      apply inrange_testbit_high with (w := w); trivial. lia.
  - rewrite shift_bits_msb, rol_bits by lia.
    destruct (Z.eqb_spec j 0) as [-> | Hne].
    + cbn [Z.leb andb]. exact Hc.
    + replace (1 <=? j) with true by (symmetry; apply Z.leb_le; lia).
      cbn [andb]. destruct (Z.ltb_spec j w); trivial.
      apply inrange_testbit_high with (w := w); trivial.
Qed.

Lemma loop_shifts_reference lsb k d :
  inrange w d ->
  loop_shifts w lsb k d = _simulate_shifts d (Z.of_nat (S k)) lsb w.
Proof.
  unfold _simulate_shifts.
  replace (Z.to_nat (Z.of_nat (S k) - 1)) with k by lia.
  revert d. induction k as [| k IH]; intros d Hd.
  - cbn [loop_shifts Nat.iter nat_rect]. rewrite hw_sample by assumption.
    now destruct lsb.
  - cbn [loop_shifts]. rewrite hw_sample by assumption.
    rewrite !Nat.iter_succ_r.
    destruct lsb.
    + rewrite hw_shift
        by (auto using sampr_inrange, sampr_closed).
      rewrite IH by apply ror_inrange. reflexivity.
    + rewrite hw_shift
        by (auto using sampl_inrange, sampl_closed).
      rewrite IH by apply rol_inrange. reflexivity.
Qed.

(** Rotating and then sampling moves every bit one place round a ring
    of [w - 1] positions, the two end bits of the register being one
    position of the ring. *)
Lemma ring_index a : (a + (w - 1)) mod (w - 1) = a mod (w - 1).
Proof.
  replace (a + (w - 1)) with (a + 1 * (w - 1)) by lia.
  apply Z.mod_add. lia.
Qed.

Lemma rol_sampl_bits (k : nat) x i :
  inrange w x -> Z.testbit x 0 = Z.testbit x (w - 1) -> 0 <= i ->
  Z.testbit (Nat.iter k (fun c => _sampl (_rol c w) w) x) i =
  if i <? w then Z.testbit x ((i - Z.of_nat k) mod (w - 1)) else false.
Proof.
  intros Hx Hc. revert i. induction k as [| k IH]; intros i Hi.
  - cbn [Nat.iter nat_rect]. rewrite Z.sub_0_r.
    destruct (Z.ltb_spec i w) as [Hlt | Hge].
    + destruct (Z.eq_dec i (w - 1)) as [-> | Hne].
      * rewrite Z.mod_same by lia. now symmetry.
      * now rewrite Z.mod_small by lia.
    + now apply inrange_testbit_high with (w := w).
  - rewrite Nat.iter_succ.
    rewrite sampl_bits by (trivial; apply rol_inrange).
    rewrite !rol_bits by lia.
    replace (w - 1 =? 0) with false by (symmetry; apply Z.eqb_neq; lia).
    replace (w - 1 <? w) with true by (symmetry; apply Z.ltb_lt; lia).
    replace (w - 1 - 1) with (w - 2) by lia.
    destruct (Z.eqb_spec i 0) as [-> | Hne].
    + rewrite IH by lia.
      replace (w - 2 <? w) with true by (symmetry; apply Z.ltb_lt; lia).
      replace (0 <? w) with true by (symmetry; apply Z.ltb_lt; lia).
      rewrite <- (ring_index (0 - Z.of_nat (S k))).
      f_equal. f_equal. lia.
    + destruct (Z.ltb_spec i w) as [Hlt | Hge]; trivial.
      rewrite IH by lia.
      replace (i - 1 <? w) with true by (symmetry; apply Z.ltb_lt; lia).
      f_equal. f_equal. lia.
Qed.

Lemma ror_sampr_bits (k : nat) x i :
  inrange w x -> Z.testbit x 0 = Z.testbit x (w - 1) -> 0 <= i ->
  Z.testbit (Nat.iter k (fun c => _sampr (_ror c w) w) x) i =
  if i <? w then Z.testbit x ((i + Z.of_nat k) mod (w - 1)) else false.
Proof.
  intros Hx Hc. revert i. induction k as [| k IH]; intros i Hi.
  - cbn [Nat.iter nat_rect]. rewrite Z.add_0_r.
    destruct (Z.ltb_spec i w) as [Hlt | Hge].
    + destruct (Z.eq_dec i (w - 1)) as [-> | Hne].
      * rewrite Z.mod_same by lia. now symmetry.
      * now rewrite Z.mod_small by lia.
    + now apply inrange_testbit_high with (w := w).
  - rewrite Nat.iter_succ.
    rewrite sampr_bits by (trivial; apply ror_inrange).
    rewrite !ror_bits by lia.
    replace (0 =? w - 1) with false by (symmetry; apply Z.eqb_neq; lia).
    replace (0 <? w - 1) with true by (symmetry; apply Z.ltb_lt; lia).
    replace (0 + 1) with 1 by lia.
    destruct (Z.eqb_spec i (w - 1)) as [-> | Hne].
    + rewrite IH by lia.
      replace (1 <? w) with true by (symmetry; apply Z.ltb_lt; lia).
      replace (w - 1 <? w) with true by (symmetry; apply Z.ltb_lt; lia).
      rewrite <- (ring_index (1 + Z.of_nat k)).
      f_equal. f_equal. lia.
    + destruct (Z.ltb_spec i (w - 1)) as [Hlt | Hge].
      * rewrite IH by lia.
        replace (i + 1 <? w) with true by (symmetry; apply Z.ltb_lt; lia).
        replace (i <? w) with true by (symmetry; apply Z.ltb_lt; lia).
        f_equal. f_equal. lia.
      * now replace (i <? w) with false by (symmetry; apply Z.ltb_ge; lia).
Qed.

Lemma ring_period (lsb : bool) x :
  inrange w x -> Z.testbit x 0 = Z.testbit x (w - 1) ->
  Nat.iter (Z.to_nat (w - 1))
    (fun c => if lsb then _sampr (_ror c w) w else _sampl (_rol c w) w) x
  = x.
Proof.
  intros Hx Hc. apply Z.bits_inj'. intros i Hi.
  assert (E : forall a, 0 <= a < w ->
            Z.testbit x (a mod (w - 1)) = Z.testbit x a).
  { intros a Ha. destruct (Z.eq_dec a (w - 1)) as [-> | Hne].
    - rewrite Z.mod_same by lia. exact Hc.
    - now rewrite Z.mod_small by lia. }
  destruct lsb.
  - rewrite ror_sampr_bits by assumption.
    rewrite Z2Nat.id by lia. rewrite ring_index.
    destruct (Z.ltb_spec i w); [apply E; lia |].
    symmetry. now apply inrange_testbit_high with (w := w).
  - rewrite rol_sampl_bits by assumption.
    rewrite Z2Nat.id by lia.
    rewrite <- (ring_index (i - (w - 1))).
    replace (i - (w - 1) + (w - 1)) with i by lia.
    destruct (Z.ltb_spec i w); [apply E; lia |].
    symmetry. now apply inrange_testbit_high with (w := w).
Qed.

Lemma sample_after_iter (lsb : bool) (k : nat) v :
  (if lsb
   then _sampr (Nat.iter k (fun c => _ror (_sampr c w) w) v) w
   else _sampl (Nat.iter k (fun c => _rol (_sampl c w) w) v) w) =
  Nat.iter k
    (fun c => if lsb then _sampr (_ror c w) w else _sampl (_rol c w) w)
    (if lsb then _sampr v w else _sampl v w).
Proof.
  destruct lsb; induction k as [| k IH]; trivial;
    rewrite !Nat.iter_succ, <- IH; reflexivity.
Qed.

Lemma simulate_shifts_periodic (lsb : bool) v n :
  inrange w v -> 1 <= n ->
  _simulate_shifts v (n + (w - 1)) lsb w = _simulate_shifts v n lsb w.
Proof.
  intros Hv Hn.
  assert (S : forall m, _simulate_shifts v m lsb w =
            Nat.iter (Z.to_nat (m - 1))
              (fun c => if lsb then _sampr (_ror c w) w
                        else _sampl (_rol c w) w)
              (if lsb then _sampr v w else _sampl v w)).
  { intros m. rewrite <- sample_after_iter. unfold _simulate_shifts.
    now destruct lsb. }
  rewrite !S.
  replace (Z.to_nat (n + (w - 1) - 1))
    with (Z.to_nat (n - 1) + Z.to_nat (w - 1))%nat by lia.
  rewrite Nat.iter_add. f_equal.
  apply ring_period; destruct lsb;
    auto using sampl_inrange, sampr_inrange, sampl_closed, sampr_closed.
Qed.

End Reference.

(** ** A looped-back transfer *)

Section Loopback.
Import SPIMaster.
Variable has_miso : bool.

Lemma reaches_now io s (P : t -> Prop) : P s -> reaches has_miso io s P.
Proof. intros H. exists O. split; [exact H | intros j Hj; lia]. Qed.

Lemma reaches_after io s (P : t -> Prop) (a : nat) :
  (forall j, (j < a)%nat -> done (run has_miso io j s) = false) ->
  reaches has_miso (fun j => io (a + j)%nat) (run has_miso io a s) P ->
  reaches has_miso io s P.
Proof.
  intros Ha (k & Hk & Hq). exists (a + k)%nat. rewrite run_add.
  split; [exact Hk |]. intros j Hj.
  destruct (Nat.lt_ge_cases j a) as [Hlt | Hge]; [now apply Ha |].
  replace j with (a + (j - a))%nat by lia. rewrite run_add.
  apply Hq. lia.
Qed.

Lemma reaches_step io s (P : t -> Prop) :
  done s = false ->
  reaches has_miso (fun j => io (S j)) (step has_miso (io O s) s) P ->
  reaches has_miso io s P.
Proof.
  intros Hd H. apply (reaches_after io s P 1).
  - intros j Hj. replace j with O by lia. exact Hd.
  - exact H.
Qed.

Lemma done_needs_edge s :
  SPIMachine.edge (spi s) = false -> done s = false.
Proof. intros H. unfold done, SPIMachine.done. now rewrite H. Qed.

Lemma quiet_shift io a : quiet io -> quiet (fun j => io (a + j)%nat).
Proof. intros H j s. apply H. Qed.

Lemma looped_shift io a : looped io -> looped (fun j => io (a + j)%nat).
Proof. intros H j s. apply H. Qed.

(** Wait for the clock generator's next edge, then go on. *)
Lemma reaches_edge io s f d nr nw p l r (P : t -> Prop) :
  quiet io -> looped io ->
  in_flight s f d nr nw p l r -> f <> SPIMachine.IDLE ->
  (forall io' s',
     quiet io' -> looped io' ->
     in_flight s' f d nr nw p l r ->
     SPIMachine.edge (spi s') = true ->
     reaches has_miso io' s' P) ->
  reaches has_miso io s P.
Proof.
  intros Hq Hl Hin Hf Hk.
  destruct (wait_edge has_miso (cg_measure s) io s f d nr nw p l r
              Hq (le_n _) Hin Hf) as (k & Hall & He & Hne).
  apply (reaches_after io s P k).
  - intros j Hj. apply done_needs_edge. now apply Hne.
  - apply Hk; auto using quiet_shift, looped_shift.
Qed.

Lemma reg_i_looped io j s :
  looped io -> reg_i has_miso (io j s) s = reg_o s.
Proof.
  intros Hl. destruct (Hl j s) as [H1 H2]. unfold reg_i.
  rewrite H1, H2. now destruct (Config.half_duplex _), has_miso.
Qed.

Lemma bitcounter_step nr nw :
  0 <= nr < 2 ^ bits_width -> 0 <= nw < 2 ^ bits_width -> 1 <= nr + nw ->
  exists nr' nw',
    SPIBitCounter.sync bits_width (SPIBitCounter.mk nr nw)
      (SPIBitCounter.mk nr nw) = SPIBitCounter.mk nr' nw' /\
    0 <= nr' < 2 ^ bits_width /\ 0 <= nw' < 2 ^ bits_width /\
    nr' + nw' = nr + nw - 1.
Proof.
  intros Hr Hw Hs. unfold SPIBitCounter.sync, SPIBitCounter.write,
    SPIBitCounter.read. cbn [SPIBitCounter.n_read SPIBitCounter.n_write].
  unfold Bits.trunc.
  destruct (Z.eqb_spec nw 0) as [-> | Hnw]; cbn [negb].
  - destruct (Z.eqb_spec nr 0) as [-> | Hnr]; cbn [negb]; [lia |].
    exists (nr - 1), 0. rewrite Z.mod_small by lia. repeat split; lia.
  - exists nr, (nw - 1). rewrite Z.mod_small by lia. repeat split; lia.
Qed.

Lemma setup_edge io s d nr nw p l r :
  quiet io -> looped io ->
  in_flight s SPIMachine.SETUP d nr nw p l r ->
  SPIMachine.edge (spi s) = true ->
  0 <= nr < 2 ^ bits_width -> 0 <= nw < 2 ^ bits_width -> 1 <= nr + nw ->
  done s = false /\
  exists nr' nw',
    in_flight (step has_miso (io O s) s) SPIMachine.HOLD
      (SPIRegister.sync data_width l false true
         (SPIRegister.o data_width l d) d d)
      nr' nw' p l r /\
    0 <= nr' < 2 ^ bits_width /\ 0 <= nw' < 2 ^ bits_width /\
    nr' + nw' = nr + nw - 1.
Proof.
  intros Hq Hl Hin He Hr Hw Hs.
  pose proof (tick_edge_in_flight has_miso (io O s) s _ _ _ _ _ _ _
                (Hq O s) Hin He) as T. cbv zeta in T.
  destruct Hin as (F & D & B & P & A & PH & L & R & C).
  assert (Hd : done s = false).
  { unfold done, SPIMachine.done. rewrite F. apply andb_false_r. }
  split; [exact Hd |].
  destruct (bitcounter_step nr nw Hr Hw Hs) as (nr' & nw' & E & Hr' & Hw' & Hs').
  exists nr', nw'.
  rewrite Hd in T. unfold SPIMachine.next_state, SPIMachine.shift,
    SPIMachine.sample in T. rewrite F in T. cbn [SPIMachine.ongoing] in T.
  rewrite E, reg_i_looped in T by assumption.
  unfold reg_o, lsb in T. rewrite L, D in T.
  split; [exact T |]. auto.
Qed.

Lemma hold_edge io s d nr nw p l r :
  quiet io ->
  in_flight s SPIMachine.HOLD d nr nw p l r ->
  SPIMachine.edge (spi s) = true ->
  0 <= nr -> 0 <= nw -> 1 <= nr + nw ->
  done s = false /\
  in_flight (step has_miso (io O s) s) SPIMachine.SETUP
    (SPIRegister.sync data_width l true false false d d) nr nw p l r.
Proof.
  intros Hq Hin He Hr Hw Hs.
  pose proof (tick_edge_in_flight has_miso (io O s) s _ _ _ _ _ _ _
                (Hq O s) Hin He) as T. cbv zeta in T.
  destruct Hin as (F & D & B & P & A & PH & L & R & C).
  assert (Hb : SPIMachine.bits_done (spi s) = false).
  { unfold SPIMachine.bits_done, SPIBitCounter.done, SPIBitCounter.write,
      SPIBitCounter.read. rewrite B.
    cbn [SPIBitCounter.n_read SPIBitCounter.n_write].
    destruct (Z.eqb_spec nw 0), (Z.eqb_spec nr 0); trivial. lia. }
  assert (Hd : done s = false).
  { unfold done, SPIMachine.done. rewrite Hb. now rewrite andb_false_r. }
  split; [exact Hd |].
  rewrite Hd in T. unfold SPIMachine.next_state, SPIMachine.shift,
    SPIMachine.sample in T. rewrite F, Hb in T.
  cbn [SPIMachine.ongoing andb negb] in T.
  exact T.
Qed.

(** From SETUP with [m + 1] bits left, the sequencer alternates sample
    and shift edges and arrives in HOLD, on an edge, with the bit counter
    done and the looped-back register contents. *)
Lemma bit_loop (m : nat) :
  forall io s d nr nw p l r,
    quiet io -> looped io ->
    in_flight s SPIMachine.SETUP d nr nw p l r ->
    0 <= nr < 2 ^ bits_width -> 0 <= nw < 2 ^ bits_width ->
    nr + nw = Z.of_nat (S m) ->
    reaches has_miso io s
      (fun s' =>
         in_flight s' SPIMachine.HOLD (loop_shifts data_width l m d)
           0 0 p l r /\
         SPIMachine.edge (spi s') = true).
Proof.
  induction m as [| m IH]; intros io s d nr nw p l r Hq Hl Hin Hr Hw Hs.
  - apply (reaches_edge io s _ _ _ _ _ _ _ _ Hq Hl Hin); [discriminate |].
    intros io1 s1 Hq1 Hl1 Hin1 He1.
    destruct (setup_edge io1 s1 _ _ _ _ _ _ Hq1 Hl1 Hin1 He1 Hr Hw
                ltac:(lia))
      as (Hd & nr' & nw' & Hin2 & Hr' & Hw' & Hs').
    apply reaches_step; [exact Hd |].
    apply (reaches_edge _ _ _ _ _ _ _ _ _ _
             (quiet_shift io1 1 Hq1) (looped_shift io1 1 Hl1) Hin2);
      [discriminate |].
    intros io2 s2 Hq2 Hl2 Hin3 He3.
    apply reaches_now.
    replace nr' with 0 in Hin3 by lia. replace nw' with 0 in Hin3 by lia.
    split; [exact Hin3 | exact He3].
  - apply (reaches_edge io s _ _ _ _ _ _ _ _ Hq Hl Hin); [discriminate |].
    intros io1 s1 Hq1 Hl1 Hin1 He1.
    destruct (setup_edge io1 s1 _ _ _ _ _ _ Hq1 Hl1 Hin1 He1 Hr Hw
                ltac:(lia))
      as (Hd & nr' & nw' & Hin2 & Hr' & Hw' & Hs').
    apply reaches_step; [exact Hd |].
    apply (reaches_edge _ _ _ _ _ _ _ _ _ _
             (quiet_shift io1 1 Hq1) (looped_shift io1 1 Hl1) Hin2);
      [discriminate |].
    intros io2 s2 Hq2 Hl2 Hin3 He3.
    destruct (hold_edge io2 s2 _ _ _ _ _ _ Hq2 Hin3 He3
                ltac:(lia) ltac:(lia) ltac:(lia)) as (Hd2 & Hin4).
    apply reaches_step; [exact Hd2 |].
    apply (IH _ _ _ nr' nw' _ _ _
             (quiet_shift io2 1 Hq2) (looped_shift io2 1 Hl2) Hin4);
      lia.
Qed.

(** A transfer of [n >= 1] bits queued while the core is idle and its clock
    generator is parked on an edge: the execution reaches the [done] pulse,
    with no pulse before it, and the shift register then holds the
    looped-back contents. *)
Lemma transfer_done io s :
  quiet io -> looped io ->
  SPIMachine.fsm (spi s) = SPIMachine.IDLE ->
  SPIMachine.edge (spi s) = true ->
  pending s = true -> ack s = false ->
  0 <= Xfer.read_length (xfer s) < 2 ^ bits_width ->
  0 <= Xfer.write_length (xfer s) < 2 ^ bits_width ->
  forall m : nat,
    Xfer.read_length (xfer s) + Xfer.write_length (xfer s)
      = Z.of_nat (S m) ->
    reaches has_miso io s
      (fun s' =>
         done s' = true /\
         SPIMachine.reg (spi s') =
           loop_shifts data_width (Config.lsb_first (config s)) m
             (data_write s)).
Proof.
  intros Hq Hl Hf He Hp Ha Hr Hw m Hs.
  destruct (tick_idle_start has_miso (io O s) s (Hq O s) Hf He Hp Ha)
    as [Hin Hd].
  apply reaches_step; [exact Hd |].
  assert (Hq1 := quiet_shift io 1 Hq). assert (Hl1 := looped_shift io 1 Hl).
  assert (Fin : forall io' s',
            quiet io' -> looped io' ->
            in_flight s' SPIMachine.SETUP (data_write s)
              (Xfer.read_length (xfer s)) (Xfer.write_length (xfer s))
              (Config.clk_phase (config s)) (Config.lsb_first (config s))
              (data_read s) ->
            reaches has_miso io' s'
              (fun s'0 =>
                 done s'0 = true /\
                 SPIMachine.reg (spi s'0) =
                   loop_shifts data_width (Config.lsb_first (config s)) m
                     (data_write s))).
  { intros io' s' Hq' Hl' Hin'.
    destruct (bit_loop m io' s' _ _ _ _ _ _ Hq' Hl' Hin' Hr Hw Hs)
      as (k & [Hk Hek] & Hno).
    exists k. split; [| exact Hno].
    destruct Hk as (F & D & B & _).
    split; [| exact D].
    unfold done, SPIMachine.done, SPIMachine.bits_done.
    now rewrite Hek, F, B. }
  destruct (Config.clk_phase (config s)) eqn:Hph.
  - apply (reaches_edge _ _ _ _ _ _ _ _ _ _ Hq1 Hl1 Hin);
      [discriminate |].
    intros io2 s2 Hq2 Hl2 Hin2 He2.
    pose proof (tick_edge_in_flight has_miso (io2 O s2) s2 _ _ _ _ _ _ _
                  (Hq2 O s2) Hin2 He2) as T. cbv zeta in T.
    destruct Hin2 as (F & D & B & P & A & PH & L & R & C).
    assert (Hb : SPIMachine.bits_done (spi s2) = false).
    { unfold SPIMachine.bits_done, SPIBitCounter.done, SPIBitCounter.write,
        SPIBitCounter.read. rewrite B.
      cbn [SPIBitCounter.n_read SPIBitCounter.n_write].
      destruct (Z.eqb_spec (Xfer.write_length (xfer s)) 0),
        (Z.eqb_spec (Xfer.read_length (xfer s)) 0); trivial. lia. }
    assert (Hd2 : done s2 = false).
    { unfold done, SPIMachine.done. rewrite F. apply andb_false_r. }
    apply reaches_step; [exact Hd2 |].
    apply Fin; auto using quiet_shift, looped_shift.
    + apply (quiet_shift io2 1 Hq2).
    + apply (looped_shift io2 1 Hl2).
    + rewrite Hd2 in T. unfold SPIMachine.next_state, SPIMachine.shift,
        SPIMachine.sample in T. rewrite F, Hb in T.
      cbn [SPIMachine.ongoing] in T. exact T.
  - now apply Fin.
Qed.

End Loopback.


(** ** More on the test bench's reference functions *)

Section ReferenceFunctions.
Import Bits Test.
Variable w : Z.
Hypothesis Hw : 2 <= w.

(** [_simulate_shifts] is periodic in the number of samples from one
    sample on, with period [w - 1], for either bit order; with no sample
    requested it still samples once. *)
Theorem simulate_shifts_period (lsb : bool) (v : Z) :
  inrange w v ->
  (forall n, 1 <= n ->
     _simulate_shifts v (n + (w - 1)) lsb w = _simulate_shifts v n lsb w) /\
  (forall n, n <= 1 ->
     _simulate_shifts v n lsb w = _simulate_shifts v 1 lsb w) /\
  (forall n, inrange w (_simulate_shifts v n lsb w)).
Proof.
  intros Hv. split; [| split].
  - intros n Hn. now apply simulate_shifts_periodic.
  - intros n Hn. unfold _simulate_shifts.
    replace (Z.to_nat (n - 1)) with O by lia. reflexivity.
  - intros n. unfold _simulate_shifts.
    assert (Hl : forall k, inrange w
               (Nat.iter k (fun c => _rol (_sampl c w) w) v)).
    { intros [| k]; [exact Hv |]. rewrite Nat.iter_succ.
      now apply rol_inrange. }
    assert (Hr : forall k, inrange w
               (Nat.iter k (fun c => _ror (_sampr c w) w) v)).
    { intros [| k]; [exact Hv |]. rewrite Nat.iter_succ.
      now apply ror_inrange. }
    destruct lsb; [apply sampr_inrange | apply sampl_inrange]; auto.
Qed.

(** [_rol] and [_ror] undo each other on a [w]-bit value. *)
Theorem rol_ror_round_trip (x : Z) :
  inrange w x ->
  _ror (_rol x w) w = x /\ _rol (_ror x w) w = x.
Proof.
  intros Hx. split; apply Z.bits_inj'; intros i Hi.
  - rewrite ror_bits by lia.
    destruct (Z.eqb_spec i (w - 1)) as [-> | Hne].
    + now rewrite rol_bits by lia.
    + destruct (Z.ltb_spec i (w - 1)).
      * rewrite rol_bits by lia.
        replace (i + 1 =? 0) with false by (symmetry; apply Z.eqb_neq; lia).
        replace (i + 1 <? w) with true by (symmetry; apply Z.ltb_lt; lia).
        f_equal. lia.
      * symmetry. apply inrange_testbit_high with (w := w); trivial. lia.
  - rewrite rol_bits by lia.
    destruct (Z.eqb_spec i 0) as [-> | Hne].
    + rewrite ror_bits by lia. now rewrite Z.eqb_refl.
    + destruct (Z.ltb_spec i w).
      * rewrite ror_bits by lia.
        replace (i - 1 =? w - 1) with false
          by (symmetry; apply Z.eqb_neq; lia).
        replace (i - 1 <? w - 1) with true
          by (symmetry; apply Z.ltb_lt; lia).
        f_equal. lia.
      * symmetry. now apply inrange_testbit_high with (w := w).
Qed.

(** Sampling makes the two end bits of the value agree, touches no other
    bit position than the one it writes, and sampling again changes
    nothing. *)
Theorem sample_idempotent (x : Z) :
  inrange w x ->
  _sampl (_sampl x w) w = _sampl x w /\
  _sampr (_sampr x w) w = _sampr x w /\
  Z.testbit (_sampl x w) 0 = Z.testbit x (w - 1) /\
  Z.testbit (_sampr x w) (w - 1) = Z.testbit x 0 /\
  (forall i, 0 < i -> Z.testbit (_sampl x w) i = Z.testbit x i) /\
  (forall i, 0 <= i -> i <> w - 1 ->
     Z.testbit (_sampr x w) i = Z.testbit x i).
Proof.
  intros Hx.
  split; [| split; [| split; [| split; [| split]]]].
  - apply Z.bits_inj'. intros i Hi.
    rewrite !sampl_bits by (auto using sampl_inrange; lia).
    replace (w - 1 =? 0) with false by (symmetry; apply Z.eqb_neq; lia).
    now destruct (i =? 0).
  - apply Z.bits_inj'. intros i Hi.
    rewrite !sampr_bits by (auto using sampr_inrange; lia).
    replace (0 =? w - 1) with false by (symmetry; apply Z.eqb_neq; lia).
    now destruct (i =? w - 1).
  - now rewrite sampl_bits by (trivial; lia).
  - rewrite sampr_bits by (trivial; lia). now rewrite Z.eqb_refl.
  - intros i Hi. rewrite sampl_bits by (trivial; lia).
    now replace (i =? 0) with false by (symmetry; apply Z.eqb_neq; lia).
  - intros i Hi Hne. rewrite sampr_bits by (trivial; lia).
    now replace (i =? w - 1) with false by (symmetry; apply Z.eqb_neq; lia).
Qed.

End ReferenceFunctions.

Lemma simulate_shifts_period_witness :
  2 <= 8 /\ Bits.inrange 8 0x93 /\
  Test._simulate_shifts 0x93 (3 + (8 - 1)) true 8 =
  Test._simulate_shifts 0x93 3 true 8.
Proof.
  assert (H1 : 2 <= 8) by lia.
  assert (H2 : Bits.inrange 8 0x93) by (unfold Bits.inrange; lia).
  split; [exact H1 |]. split; [exact H2 |].
  exact (proj1 (simulate_shifts_period 8 H1 true 0x93 H2) 3 ltac:(lia)).
Defined.

Lemma rol_ror_round_trip_witness :
  2 <= 8 /\ Bits.inrange 8 0x93 /\
  Test._ror (Test._rol 0x93 8) 8 = 0x93.
Proof.
  assert (H1 : 2 <= 8) by lia.
  assert (H2 : Bits.inrange 8 0x93) by (unfold Bits.inrange; lia).
  split; [exact H1 |]. split; [exact H2 |].
  exact (proj1 (rol_ror_round_trip 8 H1 0x93 H2)).
Defined.

Lemma sample_idempotent_witness :
  2 <= 8 /\ Bits.inrange 8 0x92 /\
  Test._sampl (Test._sampl 0x92 8) 8 = Test._sampl 0x92 8.
Proof.
  assert (H1 : 2 <= 8) by lia.
  assert (H2 : Bits.inrange 8 0x92) by (unfold Bits.inrange; lia).
  split; [exact H1 |]. split; [exact H2 |].
  exact (proj1 (sample_idempotent 8 H1 0x92 H2)).
Defined.

(** ** The bit counter *)

Section BitCounter.
Import SPIBitCounter.
Variable width : Z.
Variables nr nw : Z.
Hypothesis Hr : 0 <= nr < 2 ^ width.
Hypothesis Hw : 0 <= nw < 2 ^ width.

Let tick (c : t) : t := sync width c c.

Lemma count_writes (k : nat) :
  (k <= Z.to_nat nw)%nat ->
  Nat.iter k tick (mk nr nw) = mk nr (nw - Z.of_nat k).
Proof.
  induction k as [| k IH]; intros Hk.
  - cbn. f_equal. lia.
  - rewrite Nat.iter_succ, IH by lia.
    unfold tick, sync, write. cbn [n_read n_write].
    replace (nw - Z.of_nat k =? 0) with false
      by (symmetry; apply Z.eqb_neq; lia).
    cbn [negb]. unfold Bits.trunc. rewrite Z.mod_small by lia.
    f_equal. lia.
Qed.

Lemma count_reads (k : nat) :
  (k <= Z.to_nat nr)%nat ->
  Nat.iter (k + Z.to_nat nw) tick (mk nr nw) = mk (nr - Z.of_nat k) 0.
Proof.
  intros Hk. rewrite Nat.iter_add, count_writes by lia.
  replace (nw - Z.of_nat (Z.to_nat nw)) with 0 by lia.
  induction k as [| k IH].
  - cbn. f_equal. lia.
  - rewrite Nat.iter_succ, IH by lia.
    unfold tick, sync, write, read. cbn [n_read n_write Z.eqb negb].
    replace (nr - Z.of_nat k =? 0) with false
      by (symmetry; apply Z.eqb_neq; lia).
    cbn [negb]. unfold Bits.trunc. rewrite Z.mod_small by lia.
    f_equal. lia.
Qed.

Lemma count_stays (k : nat) : Nat.iter k tick (mk 0 0) = mk 0 0.
Proof.
  induction k as [| k IH]; [reflexivity |].
  now rewrite Nat.iter_succ, IH.
Qed.

End BitCounter.

(** On its enabled ticks the bit counter first counts the write bits down
    to zero, leaving the read count alone, then the read bits; it reports
    [done] from exactly [n_write + n_read] ticks on and stays there. *)
Theorem bit_counter_order (width nr nw : Z) :
  0 <= nr < 2 ^ width -> 0 <= nw < 2 ^ width ->
  let tick := fun c => SPIBitCounter.sync width c c in
  let c0 := SPIBitCounter.mk nr nw in
  (forall k, (k <= Z.to_nat nw)%nat ->
     Nat.iter k tick c0 = SPIBitCounter.mk nr (nw - Z.of_nat k)) /\
  (forall k, (k <= Z.to_nat nr)%nat ->
     Nat.iter (k + Z.to_nat nw) tick c0 =
     SPIBitCounter.mk (nr - Z.of_nat k) 0) /\
  (forall k,
     SPIBitCounter.done (Nat.iter k tick c0) =
     (Z.to_nat nw + Z.to_nat nr <=? k)%nat).
Proof.
  intros Hr Hw tick c0.
  split; [intros k Hk; now apply count_writes |].
  split; [intros k Hk; now apply count_reads |].
  intros k. subst tick c0.
  destruct (Nat.leb_spec (Z.to_nat nw + Z.to_nat nr) k) as [Hge | Hlt].
  - replace k with ((k - (Z.to_nat nw + Z.to_nat nr))
                    + (Z.to_nat nr + Z.to_nat nw))%nat by lia.
    rewrite Nat.iter_add, (count_reads width nr nw Hr Hw) by lia.
    replace (nr - Z.of_nat (Z.to_nat nr)) with 0 by lia.
    now rewrite count_stays.
  - destruct (Nat.le_gt_cases k (Z.to_nat nw)) as [Hk | Hk].
    + rewrite (count_writes width nr nw Hw) by lia.
      unfold SPIBitCounter.done, SPIBitCounter.write, SPIBitCounter.read.
      cbn [SPIBitCounter.n_read SPIBitCounter.n_write].
      destruct (Z.eqb_spec (nw - Z.of_nat k) 0),
        (Z.eqb_spec nr 0); trivial; lia.
    + replace k with ((k - Z.to_nat nw) + Z.to_nat nw)%nat by lia.
      rewrite (count_reads width nr nw Hr Hw) by lia.
      unfold SPIBitCounter.done, SPIBitCounter.write, SPIBitCounter.read.
      cbn [SPIBitCounter.n_read SPIBitCounter.n_write Z.eqb negb orb].
      destruct (Z.eqb_spec (nr - Z.of_nat (k - Z.to_nat nw)) 0);
        trivial; lia.
Qed.

Lemma bit_counter_order_witness :
  0 <= 3 < 2 ^ 6 /\ 0 <= 2 < 2 ^ 6 /\
  Nat.iter 2 (fun c => SPIBitCounter.sync 6 c c) (SPIBitCounter.mk 3 2) =
  SPIBitCounter.mk 3 (2 - Z.of_nat 2).
Proof.
  assert (H1 : 0 <= 3 < 2 ^ 6) by lia.
  assert (H2 : 0 <= 2 < 2 ^ 6) by lia.
  split; [exact H1 |]. split; [exact H2 |].
  exact (proj1 (bit_counter_order 6 3 2 H1 H2) 2%nat ltac:(cbn; lia)).
Defined.

(** ** More on the register file *)

Section RegisterFileMore.
Import SPIMaster.

(** The tick on which [start] is asserted loads the sequencer from the
    buffers as they stand: the shift register from [data_write], the bit
    counts and the chip-select mask from [xfer], even when a bus write is
    being performed on that very tick; the register and the bit counter
    are not doing a sample, a shift or a count then.  [pending] is cleared
    unless that bus write is to the data register. *)
Theorem start_latches (has_miso : bool) (i : inputs) (s : t) :
  start s = true ->
  let s' := step has_miso i s in
  SPIMachine.reg (spi s') = data_write s /\
  SPIMachine.bits (spi s') =
    SPIBitCounter.mk (Xfer.read_length (xfer s))
                     (Xfer.write_length (xfer s)) /\
  cs s' = Xfer.cs (xfer s) /\
  pending s' = ack s && we i && (adr i =? 0) /\
  SPIMachine.sample (spi s) = false /\
  SPIMachine.shift (start s) (spi s) = false.
Proof.
  intros Hs s'. subst s'.
  destruct (start_no_sample_shift s Hs) as [Hsm Hsh].
  split; [now apply step_reg_start |].
  split.
  { unfold step. cbn [spi SPIMachine.sync SPIMachine.bits].
    now rewrite Hsm, Hs, andb_false_r. }
  split; [unfold step; cbn [cs]; now rewrite Hs |].
  split; [rewrite step_pending, Hs;
          now destruct (ack s && we i && (adr i =? 0)) |].
  now split.
Qed.

Lemma start_latches_witness :
  let s := mk SPIMachine.reset true 0 0 0x90000000 (Xfer.mk 1 4 0 2 0)
              Config.reset false in
  start s = true /\
  SPIMachine.reg (spi (step true (loopback_idle s) s)) = data_write s.
Proof.
  intros s. split; [reflexivity |].
  exact (proj1 (start_latches true (loopback_idle s) s eq_refl)).
Defined.

(** The [done] signal is a pulse of one tick. *)
Theorem done_single_tick (has_miso : bool) (i : inputs) (s : t) :
  done s = true -> done (step has_miso i s) = false.
Proof.
  intros Hd. destruct (done_cases s Hd) as (F & E & B).
  unfold done at 1. unfold SPIMachine.done.
  rewrite step_fsm, E. unfold SPIMachine.next_state. rewrite F, B.
  destruct (start s), (Config.clk_phase (config s)); cbn;
    now rewrite ?andb_false_r.
Qed.

Lemma done_single_tick_witness :
  let s := mk (SPIMachine.mk (SPIClockGen.mk 0 false true) 5
                 (SPIBitCounter.mk 0 0) SPIMachine.HOLD false)
              false 1 0 9 Xfer.reset Config.reset false in
  done s = true /\ done (step true (loopback_idle s) s) = false.
Proof.
  intros s. split; [reflexivity |].
  exact (done_single_tick true (loopback_idle s) s eq_refl).
Defined.

(** Bus timing.  An acknowledge lasts one tick.  A request that is not a
    write to the data register (a read, or a write to another address) is
    acknowledged on the next tick whatever the core is doing.  A read
    changes no register of the core: the tick ends in the state it would
    have reached without the request, apart from the acknowledge. *)
Theorem bus_acknowledge (has_miso : bool) (i : inputs) (s : t) :
  (ack s = true -> ack (step has_miso i s) = false) /\
  (ack s = false -> cyc i = true -> stb i = true ->
   we i = false \/ adr i <> 0 ->
   ack (step has_miso i s) = true) /\
  (ack s = false -> cyc i && stb i = false ->
   ack (step has_miso i s) = false) /\
  (we i = false ->
   let s0 := step has_miso
               (mk_inputs false false false (adr i) (dat_w i)
                          (mosi_i i) (miso i)) s in
   step has_miso i s =
   mk (spi s0) (pending s0) (cs s0) (data_read s0) (data_write s0)
      (xfer s0) (config s0)
      (if ack s then false else cyc i && stb i)).
Proof.
  split; [| split; [| split]].
  - intros Ha. now rewrite step_ack, Ha.
  - intros Ha Hc Hs [Hw | Hn]; rewrite step_ack, Ha, Hc, Hs.
    + now rewrite Hw.
    + replace (adr i =? 0) with false by (symmetry; now apply Z.eqb_neq).
      cbn. now rewrite orb_true_r.
  - intros Ha Hq. now rewrite step_ack, Ha, Hq.
  - intros Hw s0. subst s0. unfold step.
    cbn [cyc stb we adr dat_w mosi_i miso]. rewrite Hw.
    rewrite !andb_false_r. cbn [andb negb orb].
    now rewrite andb_true_r.
Qed.

(** An acknowledged write to the [xfer] register changes that register
    and nothing else: the tick ends in the state it would have reached
    without the write, with [xfer] replaced.  A transfer in flight keeps
    the lengths and the chip-select mask it was started with. *)
Theorem xfer_write_frame (has_miso : bool) (i : inputs) (s : t) :
  ack s = true -> we i = true -> adr i = 1 ->
  let s0 := step has_miso
              (mk_inputs (cyc i) (stb i) false (adr i) (dat_w i)
                         (mosi_i i) (miso i)) s in
  step has_miso i s =
  mk (spi s0) (pending s0) (cs s0) (data_read s0) (data_write s0)
     (Xfer.of_raw_bits (dat_w i)) (config s0) (ack s0).
Proof.
  intros Ha Hw Hd s0. subst s0. unfold step.
  cbn [cyc stb we adr dat_w mosi_i miso]. rewrite Ha, Hw, Hd.
  reflexivity.
Qed.

Lemma xfer_write_frame_witness :
  let i := mk_inputs true true true 1 0x00030001 false false in
  let s := mk SPIMachine.reset false 0 0 0 Xfer.reset Config.reset true in
  ack s = true /\ we i = true /\ adr i = 1 /\
  xfer (step true i s) = Xfer.of_raw_bits 0x00030001.
Proof.
  intros i s.
  split; [reflexivity |]. split; [reflexivity |]. split; [reflexivity |].
  exact (f_equal xfer (xfer_write_frame true i s eq_refl eq_refl eq_refl)).
Defined.

End RegisterFileMore.


Section ConfigRegister.
Import SPIMaster.

Lemma config_raw_bits_of_raw_bits w :
  Bits.inrange 32 w -> Config.raw_bits (Config.of_raw_bits w) = w.
Proof.
  unfold Bits.inrange. intros H.
  unfold Config.raw_bits, Config.of_raw_bits.
  cbn [Config.offline Config.active Config.pending Config.cs_polarity
       Config.clk_polarity Config.clk_phase Config.lsb_first
       Config.half_duplex Config.padding Config.div_write Config.div_read].
  rewrite !Z.testbit_spec' by lia.
  rewrite !slice_div_mod by lia. rewrite !Z.shiftl_mul_pow2 by lia.
  change (2 ^ 32) with 4294967296 in H.
  change (2 ^ (16 - 8)) with 256. change (2 ^ (24 - 16)) with 256.
  change (2 ^ (32 - 24)) with 256.
  change (2 ^ 0) with 1. change (2 ^ 1) with 2. change (2 ^ 2) with 4.
  change (2 ^ 3) with 8. change (2 ^ 4) with 16. change (2 ^ 5) with 32.
  change (2 ^ 6) with 64. change (2 ^ 7) with 128.
  change (2 ^ 8) with 256. change (2 ^ 16) with 65536.
  change (2 ^ 24) with 16777216.
  Z.div_mod_to_equations. lia.
Qed.

(** An acknowledged write of a 32-bit word to the [config] register puts
    bit 0 in [offline], bits 3 to 7 in [cs_polarity], [clk_polarity],
    [clk_phase], [lsb_first] and [half_duplex], bits [23:16] in
    [div_write] and bits [31:24] in [div_read]; [active] and [pending]
    take the live state instead of bits 1 and 2.  Reading the fields back
    as a word is the inverse of writing a word to them. *)
Theorem config_write (has_miso : bool) (i : inputs) (s : t) :
  ack s = true -> we i = true -> adr i = 2 ->
  Bits.inrange 32 (dat_w i) ->
  let c := config (step has_miso i s) in
  let w := dat_w i in
  Config.offline c = Z.testbit w 0 /\
  Config.active c = spi_cs s /\
  Config.pending c = pending s /\
  Config.cs_polarity c = Z.testbit w 3 /\
  Config.clk_polarity c = Z.testbit w 4 /\
  Config.clk_phase c = Z.testbit w 5 /\
  Config.lsb_first c = Z.testbit w 6 /\
  Config.half_duplex c = Z.testbit w 7 /\
  (forall k, 0 <= k < 8 ->
     Z.testbit (Config.div_write c) k = Z.testbit w (16 + k)) /\
  (forall k, 0 <= k < 8 ->
     Z.testbit (Config.div_read c) k = Z.testbit w (24 + k)) /\
  Bits.inrange 8 (Config.div_write c) /\
  Bits.inrange 8 (Config.div_read c) /\
  Config.raw_bits (Config.of_raw_bits w) = w.
Proof.
  intros Ha Hw Hd Hr c w. subst c w.
  assert (E : config (step has_miso i s) =
              Config.set_pending (pending s)
                (Config.set_active (spi_cs s)
                   (Config.of_raw_bits (dat_w i)))).
  { unfold step. cbn [config]. rewrite Ha, Hw, Hd. reflexivity. }
  rewrite E.
  cbn [Config.set_pending Config.set_active Config.of_raw_bits
       Config.offline Config.active Config.pending Config.cs_polarity
       Config.clk_polarity Config.clk_phase Config.lsb_first
       Config.half_duplex Config.padding Config.div_write Config.div_read].
  assert (B : forall lo hi k,
             0 <= lo <= hi -> 0 <= k < hi - lo ->
             Z.testbit (Bits.slice (dat_w i) lo hi) k =
             Z.testbit (dat_w i) (lo + k)).
  { intros lo hi k Hlo Hkk. rewrite testbit_slice by lia.
    replace (k <? hi - lo) with true by (symmetry; apply Z.ltb_lt; lia).
    cbn [andb]. f_equal. lia. }
  do 8 (split; [reflexivity |]).
  split; [intros k Hk; now rewrite B by lia |].
  split; [intros k Hk; now rewrite B by lia |].
  split; [apply (inrange_slice (dat_w i) 16 24); lia |].
  split; [apply (inrange_slice (dat_w i) 24 32); lia |].
  now apply config_raw_bits_of_raw_bits.
Qed.

Lemma config_write_witness :
  let i := mk_inputs true true true 2 0x05030060 false false in
  let s := mk SPIMachine.reset false 0 0 0 Xfer.reset Config.reset true in
  ack s = true /\ we i = true /\ adr i = 2 /\ Bits.inrange 32 (dat_w i) /\
  Config.clk_phase (config (step true i s)) = Z.testbit (dat_w i) 5.
Proof.
  intros i s.
  assert (R : Bits.inrange 32 (dat_w i)) by (unfold Bits.inrange; cbn; lia).
  split; [reflexivity |]. split; [reflexivity |].
  split; [reflexivity |]. split; [exact R |].
  apply (config_write true i s eq_refl eq_refl eq_refl R).
Defined.

End ConfigRegister.


(** ** Signal widths *)

Section Widths.
Import SPIMaster Bits.

Lemma inrange_assign_slice w x lo hi v :
  0 <= lo <= hi -> hi <= w -> inrange w x ->
  inrange w (assign_slice x lo hi v).
Proof.
  intros Hlo Hhi Hx. apply inrange_of_bits; [lia |]. intros i Hi.
  rewrite testbit_assign_slice by lia.
  replace (i <? hi) with false by (symmetry; apply Z.ltb_ge; lia).
  rewrite andb_false_r. now apply inrange_testbit_high with (w := w).
Qed.

Lemma inrange_set_bit w x k b :
  0 <= k < w -> inrange w x -> inrange w (set_bit x k b).
Proof.
  intros Hk Hx. apply inrange_of_bits; [lia |]. intros i Hi.
  rewrite testbit_set_bit by lia.
  replace (i =? k) with false by (symmetry; apply Z.eqb_neq; lia).
  now apply inrange_testbit_high with (w := w).
Qed.

Lemma inrange_register_sync w lsb shift sample i cur nxt :
  1 <= w -> inrange w nxt ->
  inrange w (SPIRegister.sync w lsb shift sample i cur nxt).
Proof.
  intros Hw Hn. unfold SPIRegister.sync.
  assert (H1 : inrange w
            (if shift
             then if lsb
                  then assign_slice nxt 0 (w - 1) (slice cur 1 w)
                  else assign_slice nxt 1 w (slice cur 0 (w - 1))
             else nxt)).
  { destruct shift; [| exact Hn].
    destruct lsb; apply inrange_assign_slice; trivial; lia. }
  destruct sample; [| exact H1].
  destruct lsb; apply inrange_set_bit; trivial; lia.
Qed.

Lemma inrange_bitcounter_sync w cur nxt :
  0 <= w ->
  inrange w (SPIBitCounter.n_read nxt) ->
  inrange w (SPIBitCounter.n_write nxt) ->
  inrange w (SPIBitCounter.n_read (SPIBitCounter.sync w cur nxt)) /\
  inrange w (SPIBitCounter.n_write (SPIBitCounter.sync w cur nxt)).
Proof.
  intros Hw Hr Hn. unfold SPIBitCounter.sync.
  destruct (SPIBitCounter.write cur);
    [| destruct (SPIBitCounter.read cur)];
    cbn [SPIBitCounter.n_read SPIBitCounter.n_write];
    auto using inrange_trunc.
Qed.

Lemma inrange_clockgen_sync w load b c :
  1 <= w -> inrange w (SPIClockGen.cnt c) ->
  inrange w (SPIClockGen.cnt (SPIClockGen.sync w load b c)).
Proof.
  intros Hw Hc. unfold SPIClockGen.sync.
  destruct (SPIClockGen.edge c); cbn [SPIClockGen.cnt].
  - pose proof (inrange_slice load 1 w ltac:(lia)) as H.
    unfold inrange in *.
    assert (2 ^ (w - 1) <= 2 ^ w) by (apply Z.pow_le_mono_r; lia). lia.
  - destruct (SPIClockGen.zero c); [exact Hc | apply inrange_trunc; lia].
Qed.

End Widths.

(** The reset state is well formed and every tick keeps the state well
    formed, whatever the bus and the pins carry: no register ever leaves
    the range of its signal. *)
Theorem well_formed_invariant (has_miso : bool) :
  well_formed SPIMaster.reset /\
  (forall i s, well_formed s -> well_formed (SPIMaster.step has_miso i s)) /\
  (forall io n, well_formed (SPIMaster.run has_miso io n SPIMaster.reset)).
Proof.
  assert (R : well_formed SPIMaster.reset).
  { unfold well_formed, Bits.inrange. cbn. repeat split; lia. }
  assert (S : forall i s, well_formed s ->
                well_formed (SPIMaster.step has_miso i s)).
  { intros i s (Hc & Hg & Hnr & Hnw & Hcs & Hdr & Hdw & Hxc & Hxw & Hx0
                & Hxr & Hx1 & Hcp & Hcw & Hcr).
    unfold well_formed, SPIMaster.step.
    cbn [SPIMaster.spi SPIMaster.xfer SPIMaster.config SPIMaster.cs
         SPIMaster.data_read SPIMaster.data_write SPIMachine.sync
         SPIMachine.cg SPIMachine.reg SPIMachine.bits].
    split.
    { destruct (SPIMachine.cg_ce _ _); [| exact Hc].
      apply inrange_clockgen_sync; trivial. unfold SPIMaster.clock_width.
      lia. }
    split.
    { assert (H1 : Bits.inrange SPIMaster.data_width
                (if SPIMaster.start s then SPIMaster.data_write s
                 else SPIMachine.reg (SPIMaster.spi s)))
        by (destruct (SPIMaster.start s); assumption).
      destruct (SPIMachine.edge _); [| exact H1].
      apply inrange_register_sync; trivial. unfold SPIMaster.data_width.
      lia. }
    assert (H2 : Bits.inrange SPIMaster.bits_width
              (SPIBitCounter.n_read
                 (if SPIMaster.start s
                  then SPIBitCounter.mk (Xfer.read_length (SPIMaster.xfer s))
                         (Xfer.write_length (SPIMaster.xfer s))
                  else SPIMachine.bits (SPIMaster.spi s))) /\
            Bits.inrange SPIMaster.bits_width
              (SPIBitCounter.n_write
                 (if SPIMaster.start s
                  then SPIBitCounter.mk (Xfer.read_length (SPIMaster.xfer s))
                         (Xfer.write_length (SPIMaster.xfer s))
                  else SPIMachine.bits (SPIMaster.spi s))))
      by (destruct (SPIMaster.start s); split; assumption).
    destruct H2 as [H2r H2w].
    assert (H3 := inrange_bitcounter_sync SPIMaster.bits_width
                    (SPIMachine.bits (SPIMaster.spi s)) _
                    ltac:(unfold SPIMaster.bits_width; lia) H2r H2w).
    split. { destruct (_ && _); [apply H3 | exact H2r]. }
    split. { destruct (_ && _); [apply H3 | exact H2w]. }
    split. { destruct (SPIMaster.start s); assumption. }
    split. { destruct (SPIMaster.done s); assumption. }
    split. { destruct (_ && _); [| assumption].
             apply inrange_trunc. unfold SPIMaster.data_width. lia. }
    assert (HX : forall lo hi, 0 <= lo <= hi ->
              Bits.inrange (hi - lo)
                (Bits.slice (SPIMaster.dat_w i) lo hi))
      by (intros; now apply inrange_slice).
    destruct (SPIMaster.ack s && SPIMaster.we i
              && SPIMaster.is_xfer (SPIMaster.array_sel (SPIMaster.adr i)));
      destruct (SPIMaster.ack s && SPIMaster.we i
                && SPIMaster.is_config
                     (SPIMaster.array_sel (SPIMaster.adr i)));
      cbn [Xfer.of_raw_bits Xfer.cs Xfer.write_length Xfer.padding0
           Xfer.read_length Xfer.padding1 Config.of_raw_bits
           Config.set_pending Config.set_active Config.padding
           Config.div_write Config.div_read];
      repeat match goal with
             | |- Bits.inrange _ _ /\ _ => split
             end;
      first [ assumption
            | apply (HX 0 16); lia | apply (HX 16 22); lia
            | apply (HX 22 24); lia | apply (HX 24 30); lia
            | apply (HX 30 32); lia | apply (HX 8 16); lia
            | apply (HX 16 24); lia | apply (HX 24 32); lia ]. }
  split; [exact R |]. split; [exact S |].
  intros io n. induction n as [| n IH]; [exact R |].
  cbn [SPIMaster.run]. now apply S.
Qed.


(** ** Starting a transfer while idle *)

Section IdleStart.
Import SPIMaster.

Lemma idle_step has_miso i s :
  cyc i && stb i = false ->
  SPIMachine.fsm (spi s) = SPIMachine.IDLE ->
  pending s = false -> ack s = false ->
  SPIMachine.fsm (spi (step has_miso i s)) = SPIMachine.IDLE /\
  pending (step has_miso i s) = false /\
  ack (step has_miso i s) = false /\
  (SPIMachine.edge (spi s) = true ->
   SPIMachine.cg (spi (step has_miso i s)) = SPIMachine.cg (spi s)).
Proof.
  intros Hq Hf Hp Ha.
  assert (Hs : start s = false) by (unfold start; now rewrite Hp).
  rewrite step_fsm, step_pending, step_ack, Hs, Hp, Ha, Hq.
  unfold SPIMachine.next_state. rewrite Hf.
  split; [now destruct (SPIMachine.edge (spi s)) |].
  split; [reflexivity |]. split; [reflexivity |].
  intros He. unfold step. cbn [spi SPIMachine.sync SPIMachine.cg].
  unfold SPIMachine.cg_ce, SPIMachine.cs. now rewrite Hs, Hf, He.
Qed.

Lemma idle_run has_miso io n s :
  quiet io ->
  SPIMachine.fsm (spi s) = SPIMachine.IDLE ->
  pending s = false -> ack s = false ->
  SPIMachine.fsm (spi (run has_miso io n s)) = SPIMachine.IDLE /\
  pending (run has_miso io n s) = false /\
  ack (run has_miso io n s) = false /\
  (SPIMachine.edge (spi s) = true ->
   SPIMachine.cg (spi (run has_miso io n s)) = SPIMachine.cg (spi s)).
Proof.
  intros Hq Hf Hp Ha. induction n as [| n (F & P & A & C)].
  - now repeat split.
  - cbn [run].
    destruct (idle_step has_miso (io n (run has_miso io n s)) _
                (Hq _ _) F P A) as (F' & P' & A' & C').
    repeat split; trivial.
    intros He. rewrite C'; [now apply C |].
    unfold SPIMachine.edge. rewrite (C He). exact He.
Qed.

(** With the sequencer idle, nothing pending and no bus traffic, the clock
    generator that has reached an edge is held there: it stays on that
    edge, its clock register unchanged, for as long as the core stays
    idle, so that a transfer queued later starts on the tick it is seen. *)
Theorem clock_generator_parks (has_miso : bool)
    (io : nat -> t -> inputs) (s : t) :
  quiet io ->
  SPIMachine.fsm (spi s) = SPIMachine.IDLE ->
  pending s = false -> ack s = false ->
  SPIMachine.edge (spi s) = true ->
  forall n,
    SPIMachine.cg (spi (run has_miso io n s)) = SPIMachine.cg (spi s) /\
    SPIMachine.edge (spi (run has_miso io n s)) = true /\
    spi_cs (run has_miso io n s) = false.
Proof.
  intros Hq Hf Hp Ha He n.
  destruct (idle_run has_miso io n s Hq Hf Hp Ha) as (F & _ & _ & C).
  split; [now apply C |]. split.
  - unfold SPIMachine.edge. rewrite (C He). exact He.
  - unfold spi_cs, SPIMachine.cs. now rewrite F.
Qed.

Lemma clock_generator_parks_witness :
  let io := fun (_ : nat) => loopback_idle in
  quiet io /\
  SPIMachine.fsm (spi reset) = SPIMachine.IDLE /\
  pending reset = false /\ ack reset = false /\
  SPIMachine.edge (spi reset) = true /\
  SPIMachine.edge (spi (run true io 9 reset)) = true.
Proof.
  intros io.
  assert (Hq : quiet io) by (intros j s0; reflexivity).
  split; [exact Hq |]. split; [reflexivity |]. split; [reflexivity |].
  split; [reflexivity |]. split; [reflexivity |].
  exact (proj1 (proj2 (clock_generator_parks true io reset Hq eq_refl
                         eq_refl eq_refl eq_refl 9%nat))).
Defined.

(** A transfer that becomes pending while the sequencer is idle but the
    clock generator is still counting down to its next edge (as it does
    for some ticks after a transfer has released chip select) is dropped:
    the tick clears [pending] and loads the shift register, but the
    sequencer, which moves on edges only, stays idle; without further bus
    traffic chip select is never asserted and [done] never pulses. *)
Theorem start_between_edges_is_dropped (has_miso : bool)
    (io : nat -> t -> inputs) (s : t) :
  quiet io ->
  SPIMachine.fsm (spi s) = SPIMachine.IDLE ->
  SPIMachine.edge (spi s) = false ->
  pending s = true -> ack s = false ->
  start s = true /\
  pending (run has_miso io 1 s) = false /\
  SPIMachine.reg (spi (run has_miso io 1 s)) = data_write s /\
  (forall n,
     spi_cs (run has_miso io n s) = false /\
     done (run has_miso io n s) = false /\
     data_read (run has_miso io n s) = data_read s).
Proof.
  intros Hq Hf He Hp Ha.
  assert (Hs : start s = true).
  { unfold start, spi_cs, SPIMachine.cs. now rewrite Hp, Hf. }
  assert (F1 : SPIMachine.fsm (spi (step has_miso (io O s) s))
               = SPIMachine.IDLE) by (now rewrite step_fsm, He).
  assert (P1 : pending (step has_miso (io O s) s) = false)
    by (now rewrite step_pending, Ha, Hs).
  assert (A1 : ack (step has_miso (io O s) s) = false)
    by (now rewrite step_ack, Ha, (Hq O s)).
  assert (Hidle : forall n,
            SPIMachine.fsm (spi (run has_miso io n s)) = SPIMachine.IDLE).
  { intros [| n]; [exact Hf |]. rewrite run_S_first.
    apply idle_run; trivial. intros j s0. apply Hq. }
  assert (Hdone : forall n, done (run has_miso io n s) = false).
  { intros n. unfold done, SPIMachine.done. rewrite Hidle.
    apply andb_false_r. }
  split; [exact Hs |]. split; [exact P1 |].
  split; [cbn [run]; now apply step_reg_start |].
  intros n. split; [| split].
  - unfold spi_cs, SPIMachine.cs. now rewrite Hidle.
  - apply Hdone.
  - apply data_read_unchanged. intros j _. apply Hdone.
Qed.

Lemma start_between_edges_is_dropped_witness :
  let io := fun (_ : nat) => loopback_idle in
  let s := run true io_late_write 18 reset in
  quiet io /\
  SPIMachine.fsm (spi s) = SPIMachine.IDLE /\
  SPIMachine.edge (spi s) = false /\
  pending s = true /\ ack s = false /\
  pending (run true io 1 s) = false.
Proof.
  intros io s.
  assert (Hq : quiet io) by (intros j s0; reflexivity).
  assert (Hf : SPIMachine.fsm (spi s) = SPIMachine.IDLE)
    by (vm_compute; reflexivity).
  assert (He : SPIMachine.edge (spi s) = false) by (vm_compute; reflexivity).
  assert (Hp : pending s = true) by (vm_compute; reflexivity).
  assert (Ha : ack s = false) by (vm_compute; reflexivity).
  split; [exact Hq |]. split; [exact Hf |]. split; [exact He |].
  split; [exact Hp |]. split; [exact Ha |].
  exact (proj1 (proj2 (start_between_edges_is_dropped true io s Hq Hf He
                         Hp Ha))).
Defined.

End IdleStart.


(** ** Clock modes *)

Section ClockModes.
Import SPIMaster.

(** In every execution from reset in which [clk_phase] and [clk_polarity]
    are rewritten only while the sequencer is and stays idle: on the tick
    the register samples, the clock line leaves the level
    [clk_phase xor clk_polarity]; on the tick it shifts the next bit out,
    the line returns to that level.  So mode (0,0) samples on rising and
    outputs on falling edges, (0,1) and (1,0) sample on falling and output
    on rising edges, and (1,1) samples on rising edges again. *)
Theorem sample_clock_edge (has_miso : bool)
    (io : nat -> t -> inputs) (n : nat) :
  (forall j, (j <= n)%nat ->
     clock_config_stable (run has_miso io j reset)
                         (run has_miso io (S j) reset)) ->
  let s := run has_miso io n reset in
  let s' := run has_miso io (S n) reset in
  let level :=
    xorb (Config.clk_phase (config s)) (Config.clk_polarity (config s)) in
  SPIMachine.edge (spi s) = true ->
  (SPIMachine.sample (spi s) = true ->
   clk_o s = level /\ clk_o s' = negb level) /\
  (SPIMachine.shift (start s) (spi s) = true ->
   clk_o s = negb level /\ clk_o s' = level).
Proof.
  intros Hst s s' level He.
  assert (Hal : clk_aligned s = true).
  { apply clk_aligned_run. intros j Hj. apply Hst. lia. }
  pose proof (Hst n (le_n _)) as Hn.
  change (run has_miso io (S n) reset) with (step has_miso (io n s) s) in Hn.
  subst s'.
  change (run has_miso io (S n) reset) with (step has_miso (io n s) s).
  fold s in Hn. generalize dependent (io n s). intros i Hn.
  clear Hst. subst level.
  unfold clk_aligned in Hal. apply andb_true_iff in Hal.
  destruct Hal as [Hclk _]. apply eqb_prop in Hclk.
  assert (Hpol : SPIMachine.fsm (spi s) <> SPIMachine.IDLE ->
                 Config.clk_polarity (config (step has_miso i s)) =
                 Config.clk_polarity (config s)).
  { intros Hne. destruct Hn as [[_ Hq] | [Hi _]]; [exact Hq |].
    contradiction. }
  clear Hn.
  unfold clk_o, spi_cs, SPIMachine.cs.
  rewrite step_clk, step_fsm, He.
  unfold spi_cs, SPIMachine.cs, SPIMachine.next_state,
    SPIMachine.sample, SPIMachine.shift.
  pose proof (start_off s) as Hoff.
  destruct (SPIMachine.fsm (spi s)) eqn:F;
    (split; intros Hx; cbn [SPIMachine.ongoing] in Hx;
     try discriminate Hx).
  - rewrite Hpol by discriminate. rewrite Hoff by auto. rewrite Hclk.
    cbn [SPIMachine.ongoing negb andb orb].
    destruct (Config.clk_phase (config s)),
      (Config.clk_polarity (config s)); now split.
  - rewrite Hpol by discriminate. rewrite Hclk.
    destruct (SPIMachine.bits_done (spi s)), (start s);
      cbn [andb negb] in Hx; try discriminate Hx;
      cbn [SPIMachine.ongoing negb andb orb];
      destruct (Config.clk_phase (config s)),
        (Config.clk_polarity (config s)); now split.
Qed.

Lemma sample_clock_edge_witness :
  let io := io_single 5 in
  (forall j, (j <= 3)%nat ->
     clock_config_stable (run true io j reset) (run true io (S j) reset)) /\
  SPIMachine.edge (spi (run true io 3 reset)) = true /\
  SPIMachine.sample (spi (run true io 3 reset)) = true /\
  clk_o (run true io 3 reset) = false /\
  clk_o (run true io 4 reset) = true.
Proof.
  intros io.
  assert (H : forall j, (j <= 3)%nat ->
            clock_config_stable (run true io j reset)
                                (run true io (S j) reset)).
  { intros j Hj.
    destruct j as [| [| [| [| j]]]];
      first [ left; split; reflexivity | lia ]. }
  assert (He : SPIMachine.edge (spi (run true io 3 reset)) = true)
    by (vm_compute; reflexivity).
  assert (Hs : SPIMachine.sample (spi (run true io 3 reset)) = true)
    by (vm_compute; reflexivity).
  split; [exact H |]. split; [exact He |]. split; [exact Hs |].
  exact (proj1 (sample_clock_edge true io 3 H He) Hs).
Defined.

End ClockModes.

(** ** Reading the registers back *)

Section ReadBack.
Import SPIMaster.

(** What a bus read returns after an acknowledged write of a 32-bit word
    [w]: address 1 returns [w]; address 2 returns [w] with bits 1 and 2
    replaced by the live [active] and [pending] status; address 0 does not
    return the word written to the data register but the data latched at
    the last [done] pulse. *)
Theorem bus_read_back (has_miso : bool) (i r : inputs) (s : t) :
  ack s = true -> we i = true -> Bits.inrange 32 (dat_w i) ->
  let s' := step has_miso i s in
  let w := dat_w i in
  (adr i = 1 -> adr r = 1 -> dat_r r s' = w) /\
  (adr i = 2 -> adr r = 2 ->
   dat_r r s' =
   w - 2 * Z.b2z (Z.testbit w 1) - 4 * Z.b2z (Z.testbit w 2)
     + 2 * Z.b2z (spi_cs s) + 4 * Z.b2z (pending s)) /\
  (adr i = 0 -> adr r = 0 ->
   dat_r r s' = if done s then SPIMachine.reg (spi s) else data_read s).
Proof.
  intros Ha Hw Hr s' w. subst s' w. unfold dat_r.
  split; [| split]; intros Hi Hrr; rewrite Hrr; cbn [array_sel Z.eqb Pos.eqb].
  - rewrite step_xfer, Ha, Hw, Hi. cbn [andb Z.eqb Pos.eqb].
    now apply xfer_raw_bits_of_raw_bits.
  - assert (E : config (step has_miso i s) =
                Config.set_pending (pending s)
                  (Config.set_active (spi_cs s)
                     (Config.of_raw_bits (dat_w i)))).
    { unfold step. cbn [config]. rewrite Ha, Hw, Hi. reflexivity. }
    rewrite E.
    pose proof (config_raw_bits_of_raw_bits (dat_w i) Hr) as R.
    unfold Config.raw_bits in R |- *.
    cbn [Config.set_pending Config.set_active Config.of_raw_bits
         Config.offline Config.active Config.pending Config.cs_polarity
         Config.clk_polarity Config.clk_phase Config.lsb_first
         Config.half_duplex Config.padding Config.div_write
         Config.div_read] in R |- *.
    rewrite !Z.shiftl_mul_pow2 in R |- * by lia.
    change (2 ^ 1) with 2 in R |- *. change (2 ^ 2) with 4 in R |- *.
    change (2 ^ 3) with 8 in R |- *. change (2 ^ 4) with 16 in R |- *.
    change (2 ^ 5) with 32 in R |- *. change (2 ^ 6) with 64 in R |- *.
    change (2 ^ 7) with 128 in R |- *. change (2 ^ 8) with 256 in R |- *.
    change (2 ^ 16) with 65536 in R |- *.
    change (2 ^ 24) with 16777216 in R |- *.
    lia.
  - apply step_data_read.
Qed.

Lemma bus_read_back_witness :
  let i := mk_inputs true true true 1 0x00030001 false false in
  let r := mk_inputs true true false 1 0 false false in
  let s := mk SPIMachine.reset false 0 0 0 Xfer.reset Config.reset true in
  ack s = true /\ we i = true /\ Bits.inrange 32 (dat_w i) /\
  dat_r r (step true i s) = 0x00030001.
Proof.
  intros i r s.
  assert (R : Bits.inrange 32 (dat_w i)) by (unfold Bits.inrange; cbn; lia).
  split; [reflexivity |]. split; [reflexivity |]. split; [exact R |].
  exact (proj1 (bus_read_back true i r s eq_refl eq_refl R) eq_refl eq_refl).
Defined.

End ReadBack.


Section LoopbackTransfer.
Import SPIMaster.

Lemma idle_start_no_edge has_miso io s :
  quiet io ->
  SPIMachine.fsm (spi s) = SPIMachine.IDLE ->
  SPIMachine.edge (spi s) = false ->
  ack s = false ->
  forall n, SPIMachine.fsm (spi (run has_miso io n s)) = SPIMachine.IDLE.
Proof.
  intros Hq Hf He Ha [| n]; [exact Hf |].
  rewrite run_S_first.
  apply idle_run.
  - intros j s0. apply Hq.
  - now rewrite step_fsm, He.
  - rewrite step_pending, Ha. cbn [andb].
    unfold start, spi_cs, SPIMachine.cs. rewrite Hf. cbn.
    now destruct (pending s).
  - now rewrite step_ack, Ha, (Hq O s).
Qed.

(** A transfer of [n = write_length + read_length >= 1] bits is pending
    with the sequencer idle and no bus acknowledge under way; from then on
    there is no bus request and the serial output is looped back to the
    input; clock phase, polarity, divisors and bit order are arbitrary.
    If the clock generator is on an edge at that tick, the execution
    reaches a [done] pulse, with none before it.  If it is not, the
    transfer is dropped: chip select is never asserted and [done] never
    pulses.  In either case, at the first [done] pulse of the execution
    the shift register holds what the test bench's [_simulate_shifts]
    computes from the written value, and the readable data register holds
    it from the next tick.  That value recurs when [n] grows by
    [width - 1 = 31]. *)
Theorem loopback_transfer (has_miso : bool)
    (io : nat -> t -> inputs) (s : t) :
  quiet io -> looped io ->
  SPIMachine.fsm (spi s) = SPIMachine.IDLE ->
  pending s = true -> ack s = false ->
  Bits.inrange data_width (data_write s) ->
  0 <= Xfer.read_length (xfer s) < 2 ^ bits_width ->
  0 <= Xfer.write_length (xfer s) < 2 ^ bits_width ->
  let n := Xfer.write_length (xfer s) + Xfer.read_length (xfer s) in
  let expected :=
    Test._simulate_shifts (data_write s) n (Config.lsb_first (config s))
      data_width in
  1 <= n ->
  (SPIMachine.edge (spi s) = true ->
   exists k,
     (forall j, (j < k)%nat -> done (run has_miso io j s) = false) /\
     done (run has_miso io k s) = true) /\
  (SPIMachine.edge (spi s) = false ->
   forall k,
     spi_cs (run has_miso io k s) = false /\
     done (run has_miso io k s) = false) /\
  (forall k,
     done (run has_miso io k s) = true ->
     (forall j, (j < k)%nat -> done (run has_miso io j s) = false) ->
     SPIMachine.reg (spi (run has_miso io k s)) = expected /\
     data_read (run has_miso io (S k) s) = expected) /\
  Test._simulate_shifts (data_write s) (n + (data_width - 1))
    (Config.lsb_first (config s)) data_width = expected.
Proof.
  intros Hq Hl Hf Hp Ha Hv Hr Hw n expected Hn.
  assert (W : 2 <= data_width) by (unfold data_width; lia).
  assert (Hs : Xfer.read_length (xfer s) + Xfer.write_length (xfer s)
               = Z.of_nat (S (Z.to_nat (n - 1)))) by (subst n; lia).
  assert (Dropped : SPIMachine.edge (spi s) = false ->
            forall k,
              spi_cs (run has_miso io k s) = false /\
              done (run has_miso io k s) = false).
  { intros He k.
    pose proof (idle_start_no_edge has_miso io s Hq Hf He Ha k) as F.
    unfold spi_cs, SPIMachine.cs, done, SPIMachine.done. rewrite F.
    split; [reflexivity | apply andb_false_r]. }
  assert (Runs : SPIMachine.edge (spi s) = true ->
            exists k,
              (forall j, (j < k)%nat -> done (run has_miso io j s) = false)
              /\ done (run has_miso io k s) = true
              /\ SPIMachine.reg (spi (run has_miso io k s)) = expected).
  { intros He.
    destruct (transfer_done has_miso io s Hq Hl Hf He Hp Ha Hr Hw _ Hs)
      as (k & [Hd Hreg] & Hno).
    rewrite (loop_shifts_reference data_width W) in Hreg by assumption.
    replace (Z.of_nat (S (Z.to_nat (n - 1)))) with n in Hreg by lia.
    exists k. now repeat split. }
  split; [| split; [exact Dropped | split]].
  - intros He. destruct (Runs He) as (k & Hno & Hd & _).
    exists k. now split.
  - intros k Hd Hno.
    destruct (SPIMachine.edge (spi s)) eqn:He.
    + destruct (Runs eq_refl) as (k0 & Hno0 & Hd0 & Hreg0).
      assert (k = k0).
      { destruct (Nat.lt_trichotomy k k0) as [Hlt | [Heq | Hgt]];
          trivial.
        - rewrite (Hno0 k Hlt) in Hd. discriminate Hd.
        - rewrite (Hno k0 Hgt) in Hd0. discriminate Hd0. }
      subst k0. split; [exact Hreg0 |].
      cbn [run]. rewrite step_data_read, Hd. exact Hreg0.
    + destruct (Dropped eq_refl k) as [_ Hnd].
      rewrite Hnd in Hd. discriminate Hd.
  - now apply simulate_shifts_periodic.
Qed.

Lemma loopback_transfer_witness :
  let io := fun (_ : nat) => loopback_idle in
  let s := mk SPIMachine.reset true 0 0 0x90000000 (Xfer.mk 1 4 0 0 0)
              Config.reset false in
  quiet io /\ looped io /\
  SPIMachine.fsm (spi s) = SPIMachine.IDLE /\
  pending s = true /\ ack s = false /\
  Bits.inrange data_width (data_write s) /\
  (exists k,
     (forall j, (j < k)%nat -> done (run true io j s) = false) /\
     done (run true io k s) = true).
Proof.
  intros io s.
  assert (Hq : quiet io) by (intros j s0; reflexivity).
  assert (Hl : looped io) by (intros j s0; split; reflexivity).
  assert (Hv : Bits.inrange data_width (data_write s))
    by (unfold Bits.inrange; cbn; lia).
  split; [exact Hq |]. split; [exact Hl |].
  split; [reflexivity |]. split; [reflexivity |]. split; [reflexivity |].
  split; [exact Hv |].
  exact (proj1 (loopback_transfer true io s Hq Hl eq_refl eq_refl eq_refl
                  Hv ltac:(cbn; lia) ltac:(cbn; lia) ltac:(cbn; lia))
           eq_refl).
Defined.

End LoopbackTransfer.

Section ChainedSelects.
Import SPIMaster.


End ChainedSelects.
